(** * StreakArena: round resolution, matchmaking, relay room and client
    reconciliation, embedded in Rocq.

    Sources:
    - src/unnamed/part_007 (lib/rps.ts): [determineWinner]
    - src/src/app/api/game/choose/route.ts (first handler): [choose]
    - src/src/app/api/game/session/abandon/route.ts: [abandon]
    - src/src/app/api/match/route.ts (second handler): [requestMatch],
      [createWaitingSession]
    - src/unnamed/part_001 (PartyKit server): module [Relay]
    - src/src/components/RPSGame.tsx (first component): module [Client]

    The Supabase store is a record of tables; every handler is a function
    from the store (plus the request) to a response and the new store.
    Database ids (uuid columns, never empty) are modelled by [nat]. *)

From Stdlib Require Import List Bool Arith Lia String.
From Stdlib Require Import NArith.
Import ListNotations.

(* ------------------------------------------------------------------ *)
(** ** lib/rps.ts *)

Inductive RPSChoice := rock | paper | scissors.

Inductive Outcome := player1 | player2 | draw.

Definition RPSChoice_eqb (a b : RPSChoice) : bool :=
  match a, b with
  | rock, rock | paper, paper | scissors, scissors => true
  | _, _ => false
  end.

Definition Outcome_eqb (a b : Outcome) : bool :=
  match a, b with
  | player1, player1 | player2, player2 | draw, draw => true
  | _, _ => false
  end.

(** [determineWinner(c1, c2)] *)
Definition determineWinner (c1 c2 : RPSChoice) : Outcome :=
  if RPSChoice_eqb c1 c2 then draw
  else if (RPSChoice_eqb c1 rock && RPSChoice_eqb c2 scissors)
          || (RPSChoice_eqb c1 scissors && RPSChoice_eqb c2 paper)
          || (RPSChoice_eqb c1 paper && RPSChoice_eqb c2 rock)
       then player1
       else player2.

(* ------------------------------------------------------------------ *)
(** ** Rows of the Supabase tables (supabase/migrations) *)

Definition uuid := nat.

Inductive Status := waiting | playing | finished | cancelled.

Definition Status_eqb (a b : Status) : bool :=
  match a, b with
  | waiting, waiting | playing, playing
  | finished, finished | cancelled, cancelled => true
  | _, _ => false
  end.

(** Equality of a nullable uuid column with a value, as [===] and
    PostgREST's [eq] compare them: [null] equals nothing but [null]. *)
Definition oeqb (a b : option uuid) : bool :=
  match a, b with
  | Some x, Some y => Nat.eqb x y
  | None, None => true
  | _, _ => false
  end.

(** [round_choices]: [{ player1?: choice, player2?: choice }]; a [null]
    column reads as [{}] ([|| {}] in the handler). *)
Record RoundChoices := mkChoices {
  rc_player1 : option RPSChoice;
  rc_player2 : option RPSChoice
}.

Definition empty_choices : RoundChoices := mkChoices None None.

Record RoundResult := mkResult {
  winner : Outcome;
  player1_choice : RPSChoice;
  player2_choice : RPSChoice
}.

Record GameSession := mkSession {
  id : uuid;
  game_id : uuid;
  player1_id : option uuid;
  player2_id : option uuid;
  winner_id : option uuid;
  current_streak : option nat;
  status : Status;
  round_choices : RoundChoices;
  round_result : option RoundResult;
  created_at : nat;
  updated_at : nat
}.

Record Player := mkPlayer {
  p_id : uuid;
  session_id : string;
  nickname : string;
  country_flag : option string
}.

Record Champion := mkChampion {
  ch_player_name : string;
  ch_streak : nat;
  ch_country_flag : option string
}.

Record Game := mkGame {
  g_id : uuid;
  slug : string;
  is_active : bool;
  current_champion : option Champion
}.

Record Ranking := mkRanking {
  rank_id : uuid;
  r_game_id : uuid;
  r_player_id : option uuid;
  player_name : string;
  r_country_flag : option string;
  streak_count : nat;
  achieved_at : nat
}.

(** Calls of [broadcastSessionUpdate] / [broadcastSessionEnd]
    (lib/partykit.ts): the room id, the kind and the session sent. *)
Inductive RelayKind := SessionUpdate | SessionEnd.

Record RelayPost := mkPost {
  post_room : uuid;
  post_kind : RelayKind;
  post_session : option GameSession
}.

Record World := mkWorld {
  players : list Player;
  games : list Game;
  game_sessions : list GameSession;
  rankings : list Ranking;
  relay_log : list RelayPost;
  partykit_host : option string;   (* NEXT_PUBLIC_PARTYKIT_HOST *)
  clock : nat;                     (* now() *)
  next_id : nat                    (* uuid_generate_v4() *)
}.

(* ------------------------------------------------------------------ *)
(** ** Query and write primitives *)

(** [.single()]: the row when exactly one row matched, [null] otherwise. *)
Definition single {A} (l : list A) : option A :=
  match l with
  | [x] => Some x
  | _ => None
  end.

(** [.order(key, { ascending: true }).limit(1)]: first row of least key. *)
Fixpoint min_by {A} (key : A -> nat) (l : list A) : option A :=
  match l with
  | [] => None
  | x :: t =>
      match min_by key t with
      | Some y => if key y <? key x then Some y else Some x
      | None => Some x
      end
  end.

(** [.order(key, { ascending: false }).limit(1)]: first row of greatest key. *)
Fixpoint max_by {A} (key : A -> nat) (l : list A) : option A :=
  match l with
  | [] => None
  | x :: t =>
      match max_by key t with
      | Some y => if key x <? key y then Some y else Some x
      | None => Some x
      end
  end.

Definition set_sessions (w : World) (l : list GameSession) : World :=
  mkWorld (players w) (games w) l (rankings w) (relay_log w)
          (partykit_host w) (S (clock w)) (next_id w).

Definition set_rankings (w : World) (l : list Ranking) (n : nat) : World :=
  mkWorld (players w) (games w) (game_sessions w) l (relay_log w)
          (partykit_host w) (S (clock w)) n.

Definition set_games (w : World) (l : list Game) : World :=
  mkWorld (players w) l (game_sessions w) (rankings w) (relay_log w)
          (partykit_host w) (S (clock w)) (next_id w).

Definition relay_post (w : World) (room : uuid) (k : RelayKind)
    (s : option GameSession) : World :=
  mkWorld (players w) (games w) (game_sessions w) (rankings w)
          (relay_log w ++ [mkPost room k s]) (partykit_host w) (clock w)
          (next_id w).

(** The [game_sessions_updated_at] trigger: [NEW.updated_at = now()]. *)
Definition touch (t : nat) (s : GameSession) : GameSession :=
  mkSession (id s) (game_id s) (player1_id s) (player2_id s) (winner_id s)
            (current_streak s) (status s) (round_choices s) (round_result s)
            (created_at s) t.

(** [.update(f).<filters pred>.select('*')]: the rows written, and the store. *)
Definition update_sessions (w : World) (pred : GameSession -> bool)
    (f : GameSession -> GameSession) : list GameSession * World :=
  let upd s := if pred s then touch (clock w) (f s) else s in
  (map upd (filter pred (game_sessions w)),
   set_sessions w (map upd (game_sessions w))).

(** [.insert(row).select('*').single()]: the id and timestamps are the
    column defaults. *)
Definition insert_session (w : World)
    (mk : uuid -> nat -> GameSession) : GameSession * World :=
  let s := mk (next_id w) (clock w) in
  (s, mkWorld (players w) (games w) (game_sessions w ++ [s]) (rankings w)
              (relay_log w) (partykit_host w) (S (clock w)) (S (next_id w))).

Definition set_status (st : Status) (s : GameSession) : GameSession :=
  mkSession (id s) (game_id s) (player1_id s) (player2_id s) (winner_id s)
            (current_streak s) st (round_choices s) (round_result s)
            (created_at s) (updated_at s).

Definition set_round_choices (rc : RoundChoices) (s : GameSession)
    : GameSession :=
  mkSession (id s) (game_id s) (player1_id s) (player2_id s) (winner_id s)
            (current_streak s) (status s) rc (round_result s)
            (created_at s) (updated_at s).

(** [updateData] of the resolution write: [winner_id] only when truthy. *)
Definition resolve_row (rc : RoundChoices) (rr : RoundResult) (k : nat)
    (winnerId : option uuid) (s : GameSession) : GameSession :=
  mkSession (id s) (game_id s) (player1_id s) (player2_id s)
            (match winnerId with Some _ => winnerId | None => winner_id s end)
            (Some k) finished rc (Some rr) (created_at s) (updated_at s).

(** The pairing write: [{ player2_id, status: 'playing', round_choices: {},
    round_result: null }]. *)
Definition claim_row (p : uuid) (s : GameSession) : GameSession :=
  mkSession (id s) (game_id s) (player1_id s) (Some p) (winner_id s)
            (current_streak s) playing empty_choices None
            (created_at s) (updated_at s).

Definition find_player (w : World) (cookie : string) : option Player :=
  single (filter (fun p => String.eqb (session_id p) cookie) (players w)).

Definition find_player_by_id (w : World) (pid : uuid) : option Player :=
  single (filter (fun p => Nat.eqb (p_id p) pid) (players w)).

Definition session_by_id (w : World) (gsid : uuid) : option GameSession :=
  single (filter (fun s => Nat.eqb (id s) gsid) (game_sessions w)).

(* ------------------------------------------------------------------ *)
(** ** HTTP responses *)

Inductive Body :=
| BSession (s : option GameSession)                    (* { session } *)
| BMatched (s : option GameSession) (host : option string)
                                           (* { session, partykitHost } *)
| BError (msg : string) (s : option GameSession)      (* { error, session? } *)
| BCancelled.                                          (* { cancelled: true } *)

Record Response := mkResp { http_status : nat; body : Body }.

(* ------------------------------------------------------------------ *)
(** ** Ranking upsert and champion summary (choose/route.ts, 128-203) *)

(** [.eq('game_id', g).eq('player_id', pid)] on [rankings]. *)
Definition rank_key (g pid : uuid) (r : Ranking) : bool :=
  Nat.eqb (r_game_id r) g && oeqb (r_player_id r) (Some pid).

(** [rankings.insert(row)]; the unique index [idx_rankings_game_player_best]
    on [(game_id, player_id)] refuses a second row for a pair (the error
    is not inspected by the caller). *)
Definition insert_ranking (w : World) (g pid : uuid) (wp : Player)
    (k : nat) : World :=
  if existsb (rank_key g pid) (rankings w)
  then w
  else set_rankings w
         (rankings w ++ [mkRanking (next_id w) g (Some pid) (nickname wp)
                                   (country_flag wp) k (clock w)])
         (S (next_id w)).

(** [rankings.update({ streak_count, player_name, country_flag,
    achieved_at }).eq('id', rid)] *)
Definition update_ranking (w : World) (rid : uuid) (wp : Player) (k : nat)
    : World :=
  set_rankings w
    (map (fun r => if Nat.eqb (rank_id r) rid
                   then mkRanking (rank_id r) (r_game_id r) (r_player_id r)
                                  (nickname wp) (country_flag wp) k (clock w)
                   else r) (rankings w))
    (next_id w).

Definition set_champion (w : World) (g : uuid) (c : Champion) : World :=
  set_games w (map (fun x => if Nat.eqb (g_id x) g
                             then mkGame (g_id x) (slug x) (is_active x) (Some c)
                             else x) (games w)).

(** [myLast]: the caller's most recently updated finished session. *)
Definition my_last (w : World) (g pid : uuid) : option GameSession :=
  max_by updated_at
    (filter (fun s => Nat.eqb (game_id s) g && Status_eqb (status s) finished
                      && (oeqb (player1_id s) (Some pid)
                          || oeqb (player2_id s) (Some pid)))
            (game_sessions w)).

Definition record_ranking (w : World) (session : GameSession) (pid : uuid)
    (isPlayer2 : bool) (newStreak : nat) : World :=
  let g := game_id session in
  let streakForRanking :=
    if isPlayer2 then
      let prev := match my_last w g pid with
                  | Some l => if oeqb (winner_id l) (Some pid)
                              then match current_streak l with
                                   | Some k => k | None => 0 end
                              else 0
                  | None => 0
                  end in
      prev + 1
    else newStreak in
  match find_player_by_id w pid with
  | None => w
  | Some wp =>
      let w1 :=
        match single (filter (rank_key g pid) (rankings w)) with
        | Some er =>
            if streak_count er <? streakForRanking
            then update_ranking w (rank_id er) wp streakForRanking
            else w
        | None => insert_ranking w g pid wp streakForRanking
        end in
      match max_by streak_count
              (filter (fun r => Nat.eqb (r_game_id r) g) (rankings w1)) with
      | Some t => set_champion w1 g (mkChampion (player_name t) (streak_count t)
                                                (r_country_flag t))
      | None => w1
      end
  end.

(* ------------------------------------------------------------------ *)
(** ** POST /api/game/choose (choose/route.ts, first handler) *)

(** Steps 5-... when both choices are present: resolve and finish. *)
Definition resolve_round (w : World) (session : GameSession) (pid : uuid)
    (isPlayer2 : bool) (gsid : uuid) (updatedChoices : RoundChoices)
    (c1 c2 : RPSChoice) : Response * World :=
  let result := determineWinner c1 c2 in
  let base := match current_streak session with Some k => k | None => 0 end in
  let '(winnerId, newStreak) :=
    match result with
    | player1 => (player1_id session, base + 1)
    | player2 => (player2_id session, 0)
    | draw => (None, 0)
    end in
  let roundResult := mkResult result c1 c2 in
  let '(rows, w1) :=
    update_sessions w (fun s => Nat.eqb (id s) gsid)
                    (resolve_row updatedChoices roundResult newStreak winnerId) in
  match single rows with
  | None => (mkResp 500 (BError "Failed to submit choice" None), w1)
  | Some updated =>
      let w2 := if negb (Outcome_eqb result draw)
                   && oeqb winnerId (Some pid)
                then record_ranking w1 session pid isPlayer2 newStreak
                else w1 in
      (mkResp 200 (BSession (Some updated)),
       relay_post w2 gsid SessionEnd (Some updated))
  end.

(** Handlers run concurrently against the store: an [Env] gives the
    writes of other requests that land before each numbered store
    operation of a request. [no_env] is a request running alone. *)
Definition Env := nat -> World -> World.

Definition no_env : Env := fun _ w => w.

(** The request body is [{ sessionId, choice }]: [None] stands for a falsy
    [sessionId] and for a [choice] outside [VALID_CHOICES]; [cookie] is the
    player session cookie read by [getSessionId]. *)
Definition choose_env (env : Env) (w0 : World) (req_sid : option uuid)
    (req_choice : option RPSChoice) (cookie : string) : Response * World :=
  match req_sid, req_choice with
  | Some gsid, Some c =>
    let w := env 0 w0 in
    match find_player w cookie with
    | None => (mkResp 400 (BError "Player not found" None), w)
    | Some player =>
      let w1 := env 1 w in
      match single (filter (fun s => Nat.eqb (id s) gsid
                                     && Status_eqb (status s) playing)
                           (game_sessions w1)) with
      | None =>
          (mkResp 404 (BError "Game session not found or not playing" None), w1)
      | Some session =>
        let pid := p_id player in
        let isPlayer1 := oeqb (player1_id session) (Some pid) in
        let isPlayer2 := oeqb (player2_id session) (Some pid) in
        if negb isPlayer1 && negb isPlayer2
        then (mkResp 403 (BError "Not a participant" None), w1)
        else
        let existingChoices := round_choices session in
        let mine := if isPlayer1 then rc_player1 existingChoices
                    else rc_player2 existingChoices in
        let w2 := env 2 w1 in
        match mine with
        | Some _ =>
            let currentSession := session_by_id w2 gsid in
            (mkResp 400 (BError "Already chose" currentSession), w2)
        | None =>
          let updatedChoices :=
            if isPlayer1 then mkChoices (Some c) (rc_player2 existingChoices)
            else mkChoices (rc_player1 existingChoices) (Some c) in
          match rc_player1 updatedChoices, rc_player2 updatedChoices with
          | Some c1, Some c2 =>
              resolve_round w2 session pid isPlayer2 gsid updatedChoices c1 c2
          | _, _ =>
            let '(rows, w3) := update_sessions w2 (fun s => Nat.eqb (id s) gsid)
                                 (set_round_choices updatedChoices) in
            match single rows with
            | None => (mkResp 500 (BError "Failed to submit choice" None), w3)
            | Some updated =>
                (mkResp 200 (BSession (Some updated)),
                 relay_post w3 gsid SessionUpdate (Some updated))
            end
          end
        end
      end
    end
  | _, _ => (mkResp 400 (BError "Invalid sessionId or choice" None), w0)
  end.

(** A request served alone. *)
Definition choose (w : World) (req_sid : option uuid)
    (req_choice : option RPSChoice) (cookie : string) : Response * World :=
  choose_env no_env w req_sid req_choice cookie.

(* ------------------------------------------------------------------ *)
(** ** POST /api/game/session/abandon *)

Definition abandon (w : World) (req_sid : option uuid) (cookie : string)
    : Response * World :=
  match req_sid with
  | None => (mkResp 400 (BError "sessionId required" None), w)
  | Some gsid =>
    match find_player w cookie with
    | None => (mkResp 400 (BError "Player not found" None), w)
    | Some player =>
      match session_by_id w gsid with
      | None => (mkResp 404 (BError "Session not found" None), w)
      | Some session =>
        if negb (oeqb (player1_id session) (Some (p_id player))
                 || oeqb (player2_id session) (Some (p_id player)))
        then (mkResp 403 (BError "Not a participant" None), w)
        else if Status_eqb (status session) finished
                || Status_eqb (status session) cancelled
        then (mkResp 200 BCancelled, w)
        else
          let '(rows, w1) := update_sessions w (fun s => Nat.eqb (id s) gsid)
                               (set_status cancelled) in
          match single rows with
          | None => (mkResp 500 (BError "Failed to abandon session" None), w1)
          | Some updated =>
              (mkResp 200 BCancelled,
               relay_post w1 gsid SessionUpdate (Some updated))
          end
      end
    end
  end.

(* ------------------------------------------------------------------ *)
(** ** POST /api/match (match/route.ts, second handler)
 *)

Definition is_active_status (st : Status) : bool :=
  Status_eqb st waiting || Status_eqb st playing.

(** Step 3's filter: [.eq('game_id', g).in('status', ['waiting','playing'])
    .or('player1_id.eq.p,player2_id.eq.p')]. *)
Definition own_active (g p : uuid) (s : GameSession) : bool :=
  Nat.eqb (game_id s) g && is_active_status (status s)
  && (oeqb (player1_id s) (Some p) || oeqb (player2_id s) (Some p)).

(** PostgREST [.neq(col, v)]: a [null] column does not match. *)
Definition neqb (a : option uuid) (v : uuid) : bool :=
  match a with Some x => negb (Nat.eqb x v) | None => false end.

(** The waiting-session query of step 4 ([excl = None]) and of the
    double-check ([excl = Some newSession.id], [.neq('id', ...)]):
    [.eq('game_id', g).eq('status','waiting').neq('player1_id', p)
     .is('player2_id', null).order('created_at', asc).limit(1)]. *)
Definition find_waiting (w : World) (g p : uuid) (excl : option uuid)
    : option GameSession :=
  min_by created_at
    (filter (fun s => Nat.eqb (game_id s) g && Status_eqb (status s) waiting
                      && neqb (player1_id s) p
                      && (match player2_id s with None => true | Some _ => false end)
                      && (match excl with
                          | Some k => negb (Nat.eqb (id s) k)
                          | None => true end))
            (game_sessions w)).

(** The optimistic lock: [.eq('id', k).eq('status', 'waiting')]. *)
Definition claimable (k : uuid) (s : GameSession) : bool :=
  Nat.eqb (id s) k && Status_eqb (status s) waiting.

(** [lastWin]: the requester's most recently updated finished win. *)
Definition last_win (w : World) (g p : uuid) : option GameSession :=
  max_by updated_at
    (filter (fun s => Nat.eqb (game_id s) g && oeqb (winner_id s) (Some p)
                      && Status_eqb (status s) finished)
            (game_sessions w)).

(** [createWaitingSession], lines 233-259: read the carried streak and
    insert the waiting session. *)
Definition cws_insert (env : Env) (w0 : World) (g p : uuid)
    : GameSession * World :=
  let w1 := env 10 w0 in
  let incomingStreak :=
    match last_win w1 g p with
    | Some l => match current_streak l with Some k => k | None => 0 end
    | None => 0
    end in
  let w2 := env 11 w1 in
  insert_session w2 (fun i t => mkSession i g (Some p) None None
                                  (Some incomingStreak) waiting empty_choices
                                  None t t).

(** [createWaitingSession], lines 261-311: the anti-race double-check, run
    on the store [w] the re-query sees. *)
Definition cws_recheck (env : Env) (w : World) (newSession : GameSession)
    (g p : uuid) : Response * World :=
  match find_waiting w g p (Some (id newSession)) with
  | Some otherWaiting =>
      let w1 := env 13 w in
      let '(rows, w2) := update_sessions w1 (claimable (id otherWaiting))
                                         (claim_row p) in
      match single rows with
      | Some joined =>
          let w3 := env 14 w2 in
          let '(_, w4) := update_sessions w3
                            (fun s => Nat.eqb (id s) (id newSession))
                            (set_status cancelled) in
          let w5 := relay_post w4 (id joined) SessionUpdate (Some joined) in
          (mkResp 200 (BMatched (Some joined) (partykit_host w5)), w5)
      | None =>
          (mkResp 200 (BMatched (Some newSession) (partykit_host w2)), w2)
      end
  | None => (mkResp 200 (BMatched (Some newSession) (partykit_host w)), w)
  end.

Definition createWaitingSession (env : Env) (w0 : World) (g p : uuid)
    : Response * World :=
  let '(newSession, w) := cws_insert env w0 g p in
  cws_recheck env (env 12 w) newSession g p.

Definition requestMatch (env : Env) (w0 : World) (gameSlug cookie : string)
    : Response * World :=
  if String.eqb gameSlug "" then
    (mkResp 400 (BError "gameSlug required" None), w0)
  else
  let w1 := env 0 w0 in
  match find_player w1 cookie with
  | None => (mkResp 400 (BError "Player not found. Set nickname first." None), w1)
  | Some player =>
    let pid := p_id player in
    let w2 := env 1 w1 in
    match single (filter (fun x => String.eqb (slug x) gameSlug && is_active x)
                         (games w2)) with
    | None => (mkResp 404 (BError "Game not found" None), w2)
    | Some game =>
      let g := g_id game in
      let w3 := env 2 w2 in
      let '(_, w4) := update_sessions w3 (own_active g pid)
                                      (set_status cancelled) in
      let w5 := env 3 w4 in
      match find_waiting w5 g pid None with
      | Some waitingSession =>
          let w6 := env 4 w5 in
          let '(rows, w7) := update_sessions w6 (claimable (id waitingSession))
                                             (claim_row pid) in
          match single rows with
          | None => createWaitingSession env w7 g pid
          | Some updated =>
              let w8 := relay_post w7 (id updated) SessionUpdate (Some updated) in
              (mkResp 200 (BMatched (Some updated) (partykit_host w8)), w8)
          end
      | None => createWaitingSession env w5 g pid
      end
    end
  end.

(** Requests served one after another. *)
Inductive Op :=
| OpMatch (gameSlug cookie : string)
| OpChoose (sid : option uuid) (choice : option RPSChoice) (cookie : string)
| OpAbandon (sid : option uuid) (cookie : string).

Definition step (w : World) (o : Op) : World :=
  match o with
  | OpMatch sl ck => snd (requestMatch no_env w sl ck)
  | OpChoose s c ck => snd (choose w s c ck)
  | OpAbandon s ck => snd (abandon w s ck)
  end.

Definition run (ops : list Op) (w : World) : World := fold_left step ops w.

(* ------------------------------------------------------------------ *)
(** ** PartyKit room server (src/unnamed/part_001, [GameServer]) *)

Module Relay.

(** JSON values the server inspects. [JNull] is [null] or absent. *)
Inductive JVal := JStr (s : string) | JNull | JOther.

Definition is_jstr (v : JVal) (s : string) : bool :=
  match v with JStr t => String.eqb t s | _ => false end.

(** An HTTP request to the room; [req_body] is [None] when [req.json()]
    throws, otherwise the body's [type] and [session] members. *)
Record Request := mkReq {
  req_method : string;
  req_authorization : option string;
  req_body : option (JVal * JVal)
}.

(** A client frame; [None] when [JSON.parse] throws, otherwise the
    frame's [type] and [playerId] members. *)
Definition Frame := option (JVal * JVal).

Record Conn := mkConn {
  conn_id : nat;
  conn_playerId : option string     (* connection.state?.playerId *)
}.

Record Room := mkRoom {
  ended : bool;
  conns : list Conn                 (* room.getConnections() *)
}.

Inductive Msg :=
| MSessionUpdate (session : JVal)   (* JSON.stringify(body) *)
| MSessionEnd (session : JVal)
| MPlayerLeft (playerId : string).

Inductive Out :=
| Send (to : nat) (m : Msg)
| CloseConn (c : nat) (code : nat) (reason : string).

Inductive Event :=
| ERequest (r : Request)
| EConnect (c : nat)
| EMessage (c : nat) (f : Frame)
| EClose (c : nat).

(** [getSecret] and [verifySecret]: [secret] is [env.PARTYKIT_SECRET]. *)
Definition verifySecret (secret : string) (r : Request) : bool :=
  if String.eqb secret "" then true
  else match req_authorization r with
       | Some a => String.eqb a ("Bearer " ++ secret)%string
       | None => false
       end.

(** [this.room.broadcast(m, without)] *)
Definition broadcast (rm : Room) (m : Msg) (without : list nat) : list Out :=
  map (fun c => Send (conn_id c) m)
      (filter (fun c => negb (existsb (Nat.eqb (conn_id c)) without)) (conns rm)).

Definition onRequest (secret : string) (rm : Room) (r : Request)
    : nat * Room * list Out :=
  if negb (String.eqb (req_method r) "POST") then (405, rm, [])
  else if negb (verifySecret secret r) then (401, rm, [])
  else match req_body r with
       | None => (400, rm, [])
       | Some (ty, sess) =>
           if is_jstr ty "session_update"
              && (match sess with JNull => false | _ => true end)
           then (200, rm, broadcast rm (MSessionUpdate sess) [])
           else if is_jstr ty "session_end"
           then let rm' := mkRoom true (conns rm) in
                (200, rm', broadcast rm' (MSessionEnd sess) [])
           else (400, rm, [])
       end.

(** The runtime adds the connection to the room, then calls [onConnect]. *)
Definition onConnect (rm : Room) (c : nat) : Room * list Out :=
  let rm' := mkRoom (ended rm) (conns rm ++ [mkConn c None]) in
  if ended rm then (rm', [CloseConn c 1000 "Game already ended"])
  else (rm', []).

Definition set_player (c : nat) (pid : string) (rm : Room) : Room :=
  mkRoom (ended rm)
         (map (fun x => if Nat.eqb (conn_id x) c then mkConn c (Some pid) else x)
              (conns rm)).

Definition onMessage (rm : Room) (c : nat) (f : Frame) : Room * list Out :=
  match f with
  | Some (ty, JStr pid) =>
      if is_jstr ty "join" then (set_player c pid rm, []) else (rm, [])
  | _ => (rm, [])
  end.

Definition lookup_conn (rm : Room) (c : nat) : option Conn :=
  find (fun x => Nat.eqb (conn_id x) c) (conns rm).

(** The runtime removes the connection, then calls [onClose] with it.
    [if (playerId)]: an empty string is falsy. *)
Definition onClose (rm : Room) (c : nat) : Room * list Out :=
  let rm' := mkRoom (ended rm)
                    (filter (fun x => negb (Nat.eqb (conn_id x) c)) (conns rm)) in
  if ended rm then (rm', [])
  else match lookup_conn rm c with
       | Some x =>
           match conn_playerId x with
           | Some pid =>
               if String.eqb pid "" then (rm', [])
               else (rm', broadcast rm (MPlayerLeft pid) [c])
           | None => (rm', [])
           end
       | None => (rm', [])
       end.

Definition room_step (secret : string) (rm : Room) (e : Event) : Room * list Out :=
  match e with
  | ERequest r => let '(_, rm', o) := onRequest secret rm r in (rm', o)
  | EConnect c => onConnect rm c
  | EMessage c f => onMessage rm c f
  | EClose c => onClose rm c
  end.

Fixpoint room_run (secret : string) (rm : Room) (es : list Event)
    : Room * list Out :=
  match es with
  | [] => (rm, [])
  | e :: t =>
      let '(rm1, o1) := room_step secret rm e in
      let '(rm2, o2) := room_run secret rm1 t in
      (rm2, o1 ++ o2)
  end.

Definition is_player_left (o : Out) : bool :=
  match o with Send _ (MPlayerLeft _) => true | _ => false end.

End Relay.

(* ------------------------------------------------------------------ *)
(** ** Client reconciliation (src/src/components/RPSGame.tsx, first
    component, [RPSGame]) *)

Module Client.

(** [GameState]: 'nickname' | 'matching' | 'choosing' | 'waiting' | 'result' *)
Inductive GameState := s_nickname | s_matching | s_choosing | s_waiting | s_result.

(** The component's state hooks and refs. *)
Record CState := mkC {
  state : GameState;
  session : option GameSession;
  partykitHost : option string;
  partySocketReady : bool;
  socket_open : bool;                   (* socketRef.current !== null *)
  myChoice : option RPSChoice;
  myChoiceRef : option RPSChoice;
  error : string;
  opponentLeft : bool;
  matchingRef : bool;
  matchAttempt : nat
}.

Definition set_state (s : GameState) (c : CState) : CState :=
  mkC s (session c) (partykitHost c) (partySocketReady c) (socket_open c)
      (myChoice c) (myChoiceRef c) (error c) (opponentLeft c) (matchingRef c)
      (matchAttempt c).

Definition set_session (s : option GameSession) (c : CState) : CState :=
  mkC (state c) s (partykitHost c) (partySocketReady c) (socket_open c)
      (myChoice c) (myChoiceRef c) (error c) (opponentLeft c) (matchingRef c)
      (matchAttempt c).

Definition set_myChoice (m : option RPSChoice) (c : CState) : CState :=
  mkC (state c) (session c) (partykitHost c) (partySocketReady c)
      (socket_open c) m (myChoiceRef c) (error c) (opponentLeft c)
      (matchingRef c) (matchAttempt c).

Definition set_opponentLeft (b : bool) (c : CState) : CState :=
  mkC (state c) (session c) (partykitHost c) (partySocketReady c)
      (socket_open c) (myChoice c) (myChoiceRef c) (error c) b
      (matchingRef c) (matchAttempt c).

(** [socket.close(); socketRef.current = null; setPartySocketReady(false)] *)
Definition close_socket (c : CState) : CState :=
  mkC (state c) (session c) (partykitHost c) false false (myChoice c)
      (myChoiceRef c) (error c) (opponentLeft c) (matchingRef c)
      (matchAttempt c).

(** [resetToMatching] *)
Definition resetToMatching (c : CState) : CState :=
  mkC s_matching None None false false None None "" false false
      (S (matchAttempt c)).

(** A parsed relay frame; [payload.session] / [payload.playerId] are [None]
    when falsy. *)
Inductive Payload :=
| PSessionEnd (s : option GameSession)
| PSessionUpdate (s : option GameSession)
| PPlayerLeft (playerId : option uuid)
| POther.

(** The [onMessage] handler of the PartySocket effect (lines 370-444);
    [me] is [player.id]. *)
Definition on_message (me : uuid) (c : CState) (p : Payload) : CState :=
  match p with
  | PSessionEnd (Some updated) =>
      let c1 := close_socket (set_session (Some updated) c) in
      match round_result updated with
      | Some _ => set_state s_result c1
      | None => resetToMatching c1
      end
  | PSessionUpdate (Some updated) =>
      let c1 := set_session (Some updated) c in
      if Status_eqb (status updated) cancelled
      then resetToMatching (close_socket c1)
      else if Status_eqb (status updated) finished
      then let c2 := close_socket c1 in
           match round_result updated with
           | Some _ => set_state s_result c2
           | None => resetToMatching c2
           end
      else if Status_eqb (status updated) playing
              && (match round_result updated with None => true | Some _ => false end)
      then match myChoiceRef c1 with
           | None => set_opponentLeft false (set_state s_choosing c1)
           | Some _ => c1
           end
      else c1
  | PPlayerLeft (Some pid) =>
      let opponentId :=
        match session c with
        | Some cur => if oeqb (player1_id cur) (Some me) then player2_id cur
                      else player1_id cur
        | None => None
        end in
      if oeqb (Some pid) opponentId then set_opponentLeft true c else c
  | _ => c
  end.

(** The handling of one poll response in the waiting-session poll
    (lines 308-324); [resp] is [data.session]. *)
Definition on_poll_response (c : CState) (resp : option GameSession) : CState :=
  match resp with
  | Some next =>
      if Status_eqb (status next) playing then
        let c1 := set_session (Some next) c in
        match myChoiceRef c1 with
        | None => set_opponentLeft false (set_myChoice None (set_state s_choosing c1))
        | Some _ => c1
        end
      else if Status_eqb (status next) cancelled
              || Status_eqb (status next) finished
      then resetToMatching c
      else c
  | None => c
  end.

End Client.

(* ================================================================== *)
(** * Properties *)

(** ** Generic facts about the store primitives *)

Lemma filter_andb {A} (f g : A -> bool) (l : list A) :
  filter (fun x => f x && g x) l = filter g (filter f l).
Proof.
  induction l as [|x t IH]; simpl; [reflexivity|].
  destruct (f x); simpl; [destruct (g x)|]; rewrite ?IH; reflexivity.
Qed.

Lemma filter_map_commute {A} (p : A -> bool) (f : A -> A) (l : list A) :
  (forall x, p (f x) = p x) ->
  filter p (map f l) = map f (filter p l).
Proof.
  intros Hp; induction l as [|x t IH]; simpl; [reflexivity|].
  rewrite Hp; destruct (p x); simpl; rewrite IH; reflexivity.
Qed.

Lemma map_ext_filter_true {A} (p : A -> bool) (f : A -> A) (l : list A) :
  map (fun s => if p s then f s else s) (filter p l) = map f (filter p l).
Proof.
  induction l as [|x t IH]; simpl; [reflexivity|].
  destruct (p x) eqn:E; simpl; [rewrite E, IH|rewrite IH]; reflexivity.
Qed.

Lemma eqb_id_upd (k : uuid) (pred : GameSession -> bool)
    (f : GameSession -> GameSession) (t : nat) (x : GameSession) :
  (forall s, id (f s) = id s) ->
  Nat.eqb (id (if pred x then touch t (f x) else x)) k = Nat.eqb (id x) k.
Proof. intros Hf; destruct (pred x); simpl; [rewrite Hf|]; reflexivity. Qed.

(** Reading a row by id after a write by id gives the written row. *)
Lemma session_by_id_update w gsid s f :
  session_by_id w gsid = Some s ->
  (forall x, id (f x) = id x) ->
  fst (update_sessions w (fun x => Nat.eqb (id x) gsid) f)
    = [touch (clock w) (f s)] /\
  session_by_id (snd (update_sessions w (fun x => Nat.eqb (id x) gsid) f)) gsid
    = Some (touch (clock w) (f s)).
Proof.
  unfold session_by_id, update_sessions, set_sessions; simpl; intros Hs Hf.
  destruct (filter (fun x => Nat.eqb (id x) gsid) (game_sessions w)) as [|a [|b t]]
    eqn:E; try discriminate.
  injection Hs as ->.
  rewrite filter_map_commute
    by (intros; apply (eqb_id_upd gsid (fun x => Nat.eqb (id x) gsid)); exact Hf).
  rewrite E; simpl.
  assert (Ha : Nat.eqb (id s) gsid = true).
  { assert (In s (filter (fun x => Nat.eqb (id x) gsid) (game_sessions w)))
      by (rewrite E; left; reflexivity).
    apply filter_In in H; tauto. }
  rewrite Ha; split; reflexivity.
Qed.

Lemma sessions_relay_post w k kd s :
  game_sessions (relay_post w k kd s) = game_sessions w.
Proof. reflexivity. Qed.

Lemma sessions_insert_ranking w g pid wp k :
  game_sessions (insert_ranking w g pid wp k) = game_sessions w.
Proof. unfold insert_ranking; destruct existsb; reflexivity. Qed.

Lemma sessions_record_ranking w s pid b k :
  game_sessions (record_ranking w s pid b k) = game_sessions w.
Proof.
  unfold record_ranking.
  destruct (find_player_by_id w pid); [|reflexivity].
  destruct (single _) as [er|];
    [destruct (streak_count er <? _)|];
    match goal with
    | |- context [max_by ?k ?l] => destruct (max_by k l)
    end; unfold set_champion, set_games, update_ranking, set_rankings; simpl;
    rewrite ?sessions_insert_ranking; reflexivity.
Qed.

Lemma playing_row w gsid s :
  session_by_id w gsid = Some s -> status s = playing ->
  single (filter (fun x => Nat.eqb (id x) gsid && Status_eqb (status x) playing)
                 (game_sessions w)) = Some s.
Proof.
  unfold session_by_id; intros Hs Hst; rewrite filter_andb.
  destruct (filter (fun x => Nat.eqb (id x) gsid) (game_sessions w)) as [|a [|b t]];
    try discriminate.
  injection Hs as ->; simpl; rewrite Hst; reflexivity.
Qed.

Lemma not_playing_row w gsid s :
  session_by_id w gsid = Some s -> status s <> playing ->
  single (filter (fun x => Nat.eqb (id x) gsid && Status_eqb (status x) playing)
                 (game_sessions w)) = None.
Proof.
  unfold session_by_id; intros Hs Hst; rewrite filter_andb.
  destruct (filter (fun x => Nat.eqb (id x) gsid) (game_sessions w)) as [|a [|b t]];
    try discriminate.
  injection Hs as ->; simpl.
  destruct (status s); simpl; try reflexivity; congruence.
Qed.

(* ------------------------------------------------------------------ *)
(** ** C3: the outcome table *)

(** C3: [determineWinner] is total over the 9 choice pairs: identical
    choices draw, rock beats scissors, scissors beats paper, paper beats
    rock, from either seat. *)
Theorem determineWinner_table :
  (forall c, determineWinner c c = draw) /\
  determineWinner rock scissors = player1 /\
  determineWinner scissors paper = player1 /\
  determineWinner paper rock = player1 /\
  determineWinner scissors rock = player2 /\
  determineWinner paper scissors = player2 /\
  determineWinner rock paper = player2.
Proof.
  repeat split; try reflexivity.
  intros []; reflexivity.
Qed.

(* ------------------------------------------------------------------ *)
(** ** C10: abandon on a terminal session *)

(** C10: a participant abandoning a session that is already [finished] or
    [cancelled] gets [{ cancelled: true }] and the store is left as it was
    (no row is written, no relay call is made). *)
Theorem abandon_terminal_noop :
  forall w gsid cookie player s,
  find_player w cookie = Some player ->
  session_by_id w gsid = Some s ->
  oeqb (player1_id s) (Some (p_id player))
    || oeqb (player2_id s) (Some (p_id player)) = true ->
  status s = finished \/ status s = cancelled ->
  abandon w (Some gsid) cookie = (mkResp 200 BCancelled, w).
Proof.
  intros w gsid cookie player s Hp Hs Hpart Hst.
  unfold abandon; rewrite Hp, Hs, Hpart; simpl.
  destruct Hst as [-> | ->]; reflexivity.
Qed.

(** Witness of [abandon_terminal_noop]. *)
Definition w_example : World :=
  mkWorld [mkPlayer 7 "alice" "alice" None; mkPlayer 8 "bob" "bob" None]
          [mkGame 100 "rps" true None]
          [mkSession 1 100 (Some 7) (Some 8) (Some 7) (Some 1) finished
                     (mkChoices (Some rock) (Some scissors))
                     (Some (mkResult player1 rock scissors)) 0 3]
          [] [] None 10 50.

Lemma abandon_terminal_noop_witness :
  abandon w_example (Some 1) "bob" = (mkResp 200 BCancelled, w_example).
Proof.
  apply (abandon_terminal_noop w_example 1 "bob" (mkPlayer 8 "bob" "bob" None)
           (mkSession 1 100 (Some 7) (Some 8) (Some 7) (Some 1) finished
                      (mkChoices (Some rock) (Some scissors))
                      (Some (mkResult player1 rock scissors)) 0 3));
    [reflexivity | reflexivity | reflexivity | left; reflexivity].
Defined.

(* ------------------------------------------------------------------ *)
(** ** C4: duplicate submissions *)

(** The caller's slot, as [choiceKey] picks it. *)
Definition caller_slot (s : GameSession) (pid : uuid) : option RPSChoice :=
  if oeqb (player1_id s) (Some pid) then rc_player1 (round_choices s)
  else rc_player2 (round_choices s).

Lemma session_by_id_in w gsid s :
  session_by_id w gsid = Some s -> In s (game_sessions w) /\ id s = gsid.
Proof.
  unfold session_by_id; intros Hs.
  destruct (filter (fun x => Nat.eqb (id x) gsid) (game_sessions w)) as [|a [|b t]]
    eqn:E; try discriminate.
  injection Hs as ->.
  assert (H : In s (filter (fun x => Nat.eqb (id x) gsid) (game_sessions w)))
    by (rewrite E; left; reflexivity).
  apply filter_In in H; destruct H as [H1 H2]; apply Nat.eqb_eq in H2; auto.
Qed.

(** C4 (counterexample): after the round of session 1 has been resolved,
    alice's slot still holds [rock], yet her repeated submission gets the
    404 "not playing" response, not the 400 "Already chose" conflict. *)
Lemma choose_duplicate_after_finish_cex :
  caller_slot (mkSession 1 100 (Some 7) (Some 8) (Some 7) (Some 1) finished
                         (mkChoices (Some rock) (Some scissors))
                         (Some (mkResult player1 rock scissors)) 0 3) 7 = Some rock /\
  session_by_id w_example 1
    = Some (mkSession 1 100 (Some 7) (Some 8) (Some 7) (Some 1) finished
                      (mkChoices (Some rock) (Some scissors))
                      (Some (mkResult player1 rock scissors)) 0 3) /\
  find_player w_example "alice" = Some (mkPlayer 7 "alice" "alice" None) /\
  choose w_example (Some 1) (Some rock) "alice"
    = (mkResp 404 (BError "Game session not found or not playing" None), w_example).
Proof. repeat split; reflexivity. Qed.

(** C4 (amended): let the caller be a participant of the named session
    whose slot already holds a choice. When the session is [playing], the
    handler answers 400 "Already chose" with the current session row and
    writes nothing. When the session is not [playing] (for instance
    [finished]), the handler answers 404 "Game session not found or not
    playing" and writes nothing. *)
Theorem choose_duplicate_conflict :
  forall w gsid c cookie player s c0,
  find_player w cookie = Some player ->
  session_by_id w gsid = Some s ->
  oeqb (player1_id s) (Some (p_id player))
    || oeqb (player2_id s) (Some (p_id player)) = true ->
  caller_slot s (p_id player) = Some c0 ->
  (status s = playing ->
   choose w (Some gsid) (Some c) cookie
     = (mkResp 400 (BError "Already chose" (Some s)), w)) /\
  (status s <> playing ->
   choose w (Some gsid) (Some c) cookie
     = (mkResp 404 (BError "Game session not found or not playing" None), w)).
Proof.
  intros w gsid c cookie player s c0 Hp Hs Hpart Hslot; split; intros Hst.
  - unfold choose, choose_env, no_env; cbv beta; rewrite Hp, (playing_row w gsid s Hs Hst).
    unfold caller_slot in Hslot.
    destruct (oeqb (player1_id s) (Some (p_id player))) eqn:E1;
      destruct (oeqb (player2_id s) (Some (p_id player))) eqn:E2;
      simpl in Hpart; try discriminate; simpl;
      rewrite Hslot, Hs; reflexivity.
  - unfold choose, choose_env, no_env; cbv beta;
      rewrite Hp, (not_playing_row w gsid s Hs Hst); reflexivity.
Qed.

(** Witness of [choose_duplicate_conflict]: alice chose rock, bob has not
    chosen yet, alice submits again; and alice submits again after the
    round of [w_example] is finished. *)
Definition w_partial : World :=
  mkWorld [mkPlayer 7 "alice" "alice" None; mkPlayer 8 "bob" "bob" None]
          [mkGame 100 "rps" true None]
          [mkSession 1 100 (Some 7) (Some 8) None (Some 2) playing
                     (mkChoices (Some rock) None) None 0 3]
          [] [] None 10 50.

Lemma choose_duplicate_conflict_witness :
  choose w_partial (Some 1) (Some rock) "alice"
    = (mkResp 400 (BError "Already chose"
         (Some (mkSession 1 100 (Some 7) (Some 8) None (Some 2) playing
                          (mkChoices (Some rock) None) None 0 3))), w_partial) /\
  choose w_example (Some 1) (Some rock) "alice"
    = (mkResp 404 (BError "Game session not found or not playing" None), w_example).
Proof.
  split.
  - apply (choose_duplicate_conflict w_partial 1 rock "alice"
             (mkPlayer 7 "alice" "alice" None)
             (mkSession 1 100 (Some 7) (Some 8) None (Some 2) playing
                        (mkChoices (Some rock) None) None 0 3) rock);
      reflexivity.
  - apply (choose_duplicate_conflict w_example 1 rock "alice"
             (mkPlayer 7 "alice" "alice" None)
             (mkSession 1 100 (Some 7) (Some 8) (Some 7) (Some 1) finished
                        (mkChoices (Some rock) (Some scissors))
                        (Some (mkResult player1 rock scissors)) 0 3) rock);
      [reflexivity..|discriminate].
Defined.

(* ------------------------------------------------------------------ *)
(** ** C5: resolution of a round *)

Lemma session_by_id_resolved w s pid b gsid k kd u :
  session_by_id (relay_post (record_ranking w s pid b k) gsid kd u) gsid
  = session_by_id w gsid.
Proof.
  unfold session_by_id; rewrite sessions_relay_post, sessions_record_ranking;
    reflexivity.
Qed.

Lemma session_by_id_posted w gsid kd u :
  session_by_id (relay_post w gsid kd u) gsid = session_by_id w gsid.
Proof. reflexivity. Qed.

(** C5: when the submission completes the pair of choices [(c1, c2)] of a
    [playing] session (whose two player slots are filled), the row becomes
    [finished] with [round_result = { winner: determineWinner c1 c2, c1,
    c2 }], and: on equal choices the winner is [draw], [current_streak]
    is 0 and [winner_id] is not written; on a player1 win [winner_id] is
    player1 and the carried streak ([null] read as 0) grows by exactly 1;
    on a player2 win [winner_id] is player2 and the streak is 0. The
    response carries the resolved row. *)
Theorem choose_resolves_round :
  forall w gsid c cookie player s c1 c2,
  find_player w cookie = Some player ->
  session_by_id w gsid = Some s ->
  status s = playing ->
  player1_id s <> None ->
  player2_id s <> None ->
  ((oeqb (player1_id s) (Some (p_id player)) = true
    /\ rc_player1 (round_choices s) = None /\ c = c1
    /\ rc_player2 (round_choices s) = Some c2)
   \/ (oeqb (player1_id s) (Some (p_id player)) = false
       /\ oeqb (player2_id s) (Some (p_id player)) = true
       /\ rc_player2 (round_choices s) = None /\ c = c2
       /\ rc_player1 (round_choices s) = Some c1)) ->
  let '(r, w') := choose w (Some gsid) (Some c) cookie in
  exists u,
    r = mkResp 200 (BSession (Some u)) /\
    session_by_id w' gsid = Some u /\
    status u = finished /\
    round_result u = Some (mkResult (determineWinner c1 c2) c1 c2) /\
    (c1 = c2 -> determineWinner c1 c2 = draw /\ current_streak u = Some 0
                /\ winner_id u = winner_id s) /\
    (determineWinner c1 c2 = player1 ->
       winner_id u = player1_id s
       /\ current_streak u
          = Some (match current_streak s with Some k => k | None => 0 end + 1)) /\
    (determineWinner c1 c2 = player2 ->
       winner_id u = player2_id s /\ current_streak u = Some 0).
Proof.
  intros w gsid c cookie player s c1 c2 Hp Hs Hst Hp1 Hp2 Hcase.
  assert (Hres : forall b,
    let '(r, w') := resolve_round w s (p_id player) b gsid
                      (mkChoices (Some c1) (Some c2)) c1 c2 in
    exists u,
      r = mkResp 200 (BSession (Some u)) /\
      session_by_id w' gsid = Some u /\
      status u = finished /\
      round_result u = Some (mkResult (determineWinner c1 c2) c1 c2) /\
      (c1 = c2 -> determineWinner c1 c2 = draw /\ current_streak u = Some 0
                  /\ winner_id u = winner_id s) /\
      (determineWinner c1 c2 = player1 ->
         winner_id u = player1_id s
         /\ current_streak u
            = Some (match current_streak s with Some k => k | None => 0 end + 1)) /\
      (determineWinner c1 c2 = player2 ->
         winner_id u = player2_id s /\ current_streak u = Some 0)).
  { intros b; unfold resolve_round.
    destruct (determineWinner c1 c2) eqn:Ed;
    match goal with
    | |- context [update_sessions w ?pr ?f] =>
        destruct (session_by_id_update w gsid s f Hs (fun x => eq_refl))
          as [Hrows Hrow];
        destruct (update_sessions w pr f) as [rows w1] eqn:Eu;
        simpl in Hrows, Hrow; subst rows; simpl
    end;
    try match goal with
    | |- context [if ?cond then _ else _] => destruct cond
    end;
    (eexists; split; [reflexivity|];
     split; [rewrite ?session_by_id_resolved, ?session_by_id_posted; exact Hrow|];
     simpl; split; [reflexivity|]; split; [reflexivity|]);
    (split; [|split]; intros Hc;
     first [ discriminate Hc
           | exfalso; subst c1; destruct c2; discriminate Ed
           | repeat split;
             first [ reflexivity
                   | destruct (player1_id s); [reflexivity|congruence]
                   | destruct (player2_id s); [reflexivity|congruence] ] ]). }
  unfold choose, choose_env, no_env; cbv beta; rewrite Hp, (playing_row w gsid s Hs Hst).
  destruct Hcase as [[E1 [Hn1 [-> Hc2]]] | [E1 [E2 [Hn2 [-> Hc1]]]]].
  - rewrite E1; simpl; rewrite Hn1; simpl; rewrite Hc2; apply Hres.
  - rewrite E1, E2; simpl; rewrite Hn2; simpl; rewrite Hc1; apply Hres.
Qed.

(** Witness of [choose_resolves_round]: alice chose rock, bob completes
    the round with scissors. *)
Lemma choose_resolves_round_witness :
  exists u, fst (choose w_partial (Some 1) (Some scissors) "bob")
            = mkResp 200 (BSession (Some u))
         /\ status u = finished /\ winner_id u = Some 7
         /\ current_streak u = Some 3.
Proof.
  generalize (choose_resolves_round w_partial 1 scissors "bob"
                (mkPlayer 8 "bob" "bob" None)
                (mkSession 1 100 (Some 7) (Some 8) None (Some 2) playing
                           (mkChoices (Some rock) None) None 0 3)
                rock scissors eq_refl eq_refl eq_refl
                ltac:(discriminate) ltac:(discriminate)
                (or_intror (conj eq_refl (conj eq_refl
                  (conj eq_refl (conj eq_refl eq_refl)))))).
  intros H; hnf in H; destruct H as [u [Hr [_ [Hst [_ [_ [Hp1 _]]]]]]].
  destruct (Hp1 eq_refl) as [Hw Hk].
  exists u; split; [exact Hr|]; split; [exact Hst|]; split; [exact Hw|exact Hk].
Defined.

(* ------------------------------------------------------------------ *)
(** ** C1: a repeated submission of the completing choice *)

(** Bob's request for session 1 of [w_partial] sent a second time, the
    first copy being served completely between the second copy's read
    (store operation 1) and its write (store operation 2). *)
Definition env_retry : Env :=
  fun n w => if Nat.eqb n 2 then snd (choose w (Some 1) (Some scissors) "bob")
             else w.

(** C1 (counterexample): the resolution write is filtered on the session id
    only, so the second copy, which read the session while it was still
    [playing], resolves the round a second time: it rewrites the finished
    row, answers 200 and broadcasts [session_end] again. Served after the
    resolution instead, the copy gets the 404 "not playing" answer, not
    the "Already chose" one. *)
Lemma choose_double_resolution_cex :
  option_map status
    (session_by_id (snd (choose w_partial (Some 1) (Some scissors) "bob")) 1)
    = Some finished
  /\ http_status (fst (choose_env env_retry w_partial (Some 1) (Some scissors) "bob"))
     = 200
  /\ option_map status
       (session_by_id (snd (choose_env env_retry w_partial (Some 1) (Some scissors) "bob")) 1)
     = Some finished
  /\ map (fun q => (post_room q, post_kind q))
       (relay_log (snd (choose_env env_retry w_partial (Some 1) (Some scissors) "bob")))
     = [(1, SessionEnd); (1, SessionEnd)]
  /\ fst (choose (snd (choose w_partial (Some 1) (Some scissors) "bob"))
                 (Some 1) (Some scissors) "bob")
     = mkResp 404 (BError "Game session not found or not playing" None).
Proof. repeat split; vm_compute; reflexivity. Qed.

(* ------------------------------------------------------------------ *)
(** ** C9: a playing-without-result update keeps a local choice *)

Module ClientProps.
Import Client.

(** C9: for both the realtime [session_update] handler and the
    waiting-state poll, an authoritative session with status [playing]
    and no [round_result] moves the client to [choosing] only when no
    choice is held locally ([myChoiceRef] empty); when a choice is held,
    the client state and the held choice are left as they were. *)
Theorem playing_update_respects_local_choice :
  forall (me : uuid) (c : CState) (u : GameSession),
  status u = playing -> round_result u = None ->
  (forall ch, myChoiceRef c = Some ch ->
     state (on_message me c (PSessionUpdate (Some u))) = state c
     /\ myChoiceRef (on_message me c (PSessionUpdate (Some u))) = Some ch
     /\ state (on_poll_response c (Some u)) = state c
     /\ myChoiceRef (on_poll_response c (Some u)) = Some ch) /\
  (myChoiceRef c = None ->
     state (on_message me c (PSessionUpdate (Some u))) = s_choosing
     /\ state (on_poll_response c (Some u)) = s_choosing).
Proof.
  intros me c u Hst Hrr; split.
  - intros ch Hch; unfold on_message, on_poll_response.
    rewrite Hst, Hrr; simpl; rewrite Hch; repeat split; assumption.
  - intros Hn; unfold on_message, on_poll_response.
    rewrite Hst, Hrr; simpl; rewrite Hn; split; reflexivity.
Qed.

(** Witness of [playing_update_respects_local_choice]: alice is waiting
    with [rock] held when the playing session 1 of [w_partial] arrives. *)
Definition c_waiting : CState :=
  mkC s_waiting None (Some "relay.example"%string) true true (Some rock) (Some rock)
      "" false false 0.

Lemma playing_update_respects_local_choice_witness :
  state (on_message 7 c_waiting
           (PSessionUpdate (Some (mkSession 1 100 (Some 7) (Some 8) None (Some 2)
                                   playing (mkChoices (Some rock) None) None 0 3))))
    = s_waiting
  /\ state (on_poll_response c_waiting
              (Some (mkSession 1 100 (Some 7) (Some 8) None (Some 2)
                               playing (mkChoices (Some rock) None) None 0 3)))
    = s_waiting.
Proof.
  destruct (playing_update_respects_local_choice 7 c_waiting
              (mkSession 1 100 (Some 7) (Some 8) None (Some 2)
                         playing (mkChoices (Some rock) None) None 0 3)
              eq_refl eq_refl) as [H _].
  destruct (H rock eq_refl) as [H1 [_ [H3 _]]].
  split; [exact H1 | exact H3].
Defined.

End ClientProps.

(* ------------------------------------------------------------------ *)
(** ** C8: relay room retirement *)

Module RelayProps.
Import Relay.

Lemma room_run_app secret rm es1 es2 :
  room_run secret rm (es1 ++ es2)
  = let '(rm1, o1) := room_run secret rm es1 in
    let '(rm2, o2) := room_run secret rm1 es2 in (rm2, o1 ++ o2).
Proof.
  revert rm; induction es1 as [|e t IH]; intros rm; simpl.
  - destruct (room_run secret rm es2); reflexivity.
  - destruct (room_step secret rm e) as [rm1 o1].
    rewrite IH.
    destruct (room_run secret rm1 t) as [rm2 o2].
    destruct (room_run secret rm2 es2) as [rm3 o3].
    rewrite app_assoc; reflexivity.
Qed.

Lemma onRequest_keeps_ended secret rm r :
  ended rm = true -> forall st rm' o, onRequest secret rm r = (st, rm', o) ->
  ended rm' = true.
Proof.
  intros He st rm' o; unfold onRequest.
  destruct (negb (String.eqb (req_method r) "POST")); [congruence|].
  destruct (negb (verifySecret secret r)); [congruence|].
  destruct (req_body r) as [[ty sess]|]; [|congruence].
  destruct (_ && _); [congruence|].
  destruct (is_jstr ty "session_end"); [|congruence].
  intros H; injection H as _ <- _; reflexivity.
Qed.

Lemma room_step_keeps_ended secret rm e :
  ended rm = true -> ended (fst (room_step secret rm e)) = true.
Proof.
  intros He; destruct e as [r|c|c f|c]; simpl.
  - destruct (onRequest secret rm r) as [[st rm'] o] eqn:E; simpl.
    exact (onRequest_keeps_ended secret rm r He st rm' o E).
  - unfold onConnect; rewrite He; reflexivity.
  - unfold onMessage; destruct f as [[ty [pid| |]]|]; simpl; auto.
    destruct (is_jstr ty "join"); simpl; auto.
  - unfold onClose; rewrite He; reflexivity.
Qed.

(** Once ended, a room stays ended through any further events, never
    emits [player_left], and closes every connection that arrives. *)
Lemma ended_room_run secret rm es :
  ended rm = true ->
  ended (fst (room_run secret rm es)) = true
  /\ forallb (fun o => negb (is_player_left o)) (snd (room_run secret rm es)) = true
  /\ (forall c, In (EConnect c) es ->
        In (CloseConn c 1000 "Game already ended") (snd (room_run secret rm es))).
Proof.
  revert rm; induction es as [|e t IH]; intros rm He; simpl.
  - repeat split; auto; intros c [].
  - pose proof (room_step_keeps_ended secret rm e He) as He1.
    destruct (room_step secret rm e) as [rm1 o1] eqn:Es; simpl in He1.
    destruct (IH rm1 He1) as [Hend [Hnpl Hconn]].
    destruct (room_run secret rm1 t) as [rm2 o2]; simpl in *.
    assert (Ho1 : forallb (fun o => negb (is_player_left o)) o1 = true).
    { destruct e as [r|c|c f|c]; simpl in Es.
      - destruct (onRequest secret rm r) as [[st rm'] o] eqn:E.
        injection Es as _ <-; revert E; unfold onRequest.
        destruct (negb _); [intros H; injection H as _ _ <-; reflexivity|].
        destruct (negb _); [intros H; injection H as _ _ <-; reflexivity|].
        destruct (req_body r) as [[ty sess]|];
          [|intros H; injection H as _ _ <-; reflexivity].
        unfold broadcast.
        destruct (_ && _); [|destruct (is_jstr ty "session_end")];
          intros H; injection H as _ _ <-;
          try reflexivity; apply forallb_forall; intros o Ho;
          apply in_map_iff in Ho; destruct Ho as [x [<- _]]; reflexivity.
      - unfold onConnect in Es; rewrite He in Es; injection Es as _ <-; reflexivity.
      - unfold onMessage in Es; destruct f as [[ty [pid| |]]|];
          try (injection Es as _ <-; reflexivity).
        destruct (is_jstr ty "join"); injection Es as _ <-; reflexivity.
      - unfold onClose in Es; rewrite He in Es; injection Es as _ <-; reflexivity. }
    rewrite forallb_app, Ho1, Hnpl; repeat split; auto.
    intros c [Hc | Hc].
    + subst e; simpl in Es; unfold onConnect in Es; rewrite He in Es.
      injection Es as _ <-; apply in_or_app; left; left; reflexivity.
    + apply in_or_app; right; auto.
Qed.

(** C8 (counterexample): a connection that joined with [playerId: ""]
    closes before the room has ended, and no [player_left] is broadcast:
    [if (playerId)] treats the empty id as absent. *)
Lemma relay_empty_join_cex :
  room_run "" (mkRoom false [])
    [EConnect 1; EConnect 2; EMessage 1 (Some (JStr "join", JStr "")); EClose 1]
  = (mkRoom false [mkConn 2 None], []).
Proof. reflexivity. Qed.

(** C8 (amended): before the room has ended, closing a connection that
    joined with a non-empty player id broadcasts [player_left] with that id
    to exactly the other connections of the room, and closing a connection
    that never joined (no player id) or joined with the empty id emits
    nothing; once an accepted [session_end] request (POST, secret
    verified) has arrived, the room is ended for good: no later event
    emits [player_left] and every later connection is closed with "Game
    already ended". *)
Theorem relay_player_left_then_retired :
  forall (secret : string) (rm : Room),
  (forall (c : nat) (x : Conn) (pid : string),
     ended rm = false -> lookup_conn rm c = Some x ->
     conn_playerId x = Some pid -> pid <> ""%string ->
     forall o, In o (snd (onClose rm c))
               <-> exists y, In y (conns rm) /\ conn_id y <> c
                             /\ o = Send (conn_id y) (MPlayerLeft pid)) /\
  (forall r sess es,
     req_method r = "POST"%string -> verifySecret secret r = true ->
     req_body r = Some (JStr "session_end", sess) ->
     ended (fst (room_step secret rm (ERequest r))) = true
     /\ forallb (fun o => negb (is_player_left o))
          (snd (room_run secret (fst (room_step secret rm (ERequest r))) es)) = true
     /\ (forall c, In (EConnect c) es ->
           In (CloseConn c 1000 "Game already ended")
              (snd (room_run secret (fst (room_step secret rm (ERequest r))) es)))) /\
  (forall (c : nat),
     ended rm = false ->
     (forall x, lookup_conn rm c = Some x ->
        conn_playerId x = None \/ conn_playerId x = Some ""%string) ->
     snd (onClose rm c) = []).
Proof.
  intros secret rm; split; [|split].
  - intros c x pid Hend Hl Hx Hne o.
    unfold onClose; rewrite Hend, Hl, Hx.
    destruct (String.eqb pid "") eqn:Ee;
      [apply String.eqb_eq in Ee; contradiction|].
    simpl; unfold broadcast; rewrite in_map_iff.
    split.
    + intros [y [<- Hy]]; apply filter_In in Hy; destruct Hy as [Hy Hn].
      exists y; repeat split; auto.
      simpl in Hn; rewrite orb_false_r in Hn.
      intros Hc; subst c; rewrite Nat.eqb_refl in Hn; discriminate.
    + intros [y [Hy [Hn ->]]]; exists y; split; [reflexivity|].
      apply filter_In; split; auto.
      simpl; rewrite orb_false_r; apply Nat.eqb_neq in Hn; rewrite Hn; reflexivity.
  - intros r sess es Hm Hv Hb.
    assert (He : ended (fst (room_step secret rm (ERequest r))) = true).
    { simpl; unfold onRequest; rewrite Hm, Hv, Hb; reflexivity. }
    destruct (ended_room_run secret _ es He) as [_ [H1 H2]].
    repeat split; assumption.
  - intros c Hend Hx; unfold onClose; rewrite Hend.
    destruct (lookup_conn rm c) as [x|] eqn:El; [|reflexivity].
    destruct (Hx x eq_refl) as [-> | ->]; reflexivity.
Qed.

(** Witness of [relay_player_left_then_retired]. *)
Definition room_example : Room :=
  mkRoom false [mkConn 1 (Some "p7"%string); mkConn 2 (Some "p8"%string)].

Definition end_request : Request :=
  mkReq "POST" None (Some (JStr "session_end", JOther)).

Definition room_lurker : Room :=
  mkRoom false [mkConn 1 (Some "p7"%string); mkConn 3 None].

Lemma relay_player_left_then_retired_witness :
  ((In (Send 2 (MPlayerLeft "p7"%string)) (snd (onClose room_example 1))) /\
   ended (fst (room_step "" room_example (ERequest end_request))) = true) /\
  snd (onClose room_lurker 3) = [].
Proof.
  split; [|apply (proj2 (proj2 (relay_player_left_then_retired "" room_lurker)) 3
                   eq_refl); intros x Hx; injection Hx as <-; left; reflexivity].
  destruct (relay_player_left_then_retired "" room_example) as [H1 [H2 _]].
  split.
  - apply (H1 1 (mkConn 1 (Some "p7"%string)) "p7"%string eq_refl eq_refl eq_refl
             ltac:(discriminate)).
    exists (mkConn 2 (Some "p8"%string)); split; [right; left; reflexivity|].
    split; [discriminate|reflexivity].
  - exact (proj1 (H2 end_request JOther [] eq_refl eq_refl eq_refl)).
Defined.

End RelayProps.

(* ------------------------------------------------------------------ *)
(** ** C2: the anti-race double-check of [createWaitingSession] *)

Lemma min_by_in {A} (k : A -> nat) (l : list A) x :
  min_by k l = Some x -> In x l.
Proof.
  induction l as [|y t IH]; simpl; [discriminate|].
  destruct (min_by k t) as [z|] eqn:E.
  - destruct (k z <? k y); intros H; injection H as <-; [right; auto|left; auto].
  - intros H; injection H as <-; left; reflexivity.
Qed.

Lemma max_by_in {A} (k : A -> nat) (l : list A) x :
  max_by k l = Some x -> In x l.
Proof.
  induction l as [|y t IH]; simpl; [discriminate|].
  destruct (max_by k t) as [z|] eqn:E.
  - destruct (k y <? k z); intros H; injection H as <-; [right; auto|left; auto].
  - intros H; injection H as <-; left; reflexivity.
Qed.

Lemma find_waiting_spec w g p excl ow :
  find_waiting w g p excl = Some ow ->
  In ow (game_sessions w) /\ game_id ow = g /\ status ow = waiting
  /\ neqb (player1_id ow) p = true /\ player2_id ow = None
  /\ (forall k, excl = Some k -> id ow <> k).
Proof.
  unfold find_waiting; intros H; apply min_by_in, filter_In in H.
  destruct H as [Hin Hp].
  repeat rewrite andb_true_iff in Hp.
  destruct Hp as [[[[Hg Hs] Hn] H2] He].
  apply Nat.eqb_eq in Hg.
  repeat split; auto.
  - destruct (status ow); simpl in Hs; congruence.
  - destruct (player2_id ow); [discriminate|reflexivity].
  - intros k ->; apply negb_true_iff, Nat.eqb_neq in He; exact He.
Qed.

(** C2: right after inserting its waiting session [newSession],
    [createWaitingSession] re-queries for another player's waiting
    session excluding [newSession]. Whatever other requests wrote in
    between ([env]): if none is found, the inserted session is returned;
    if one is found, the handler claims it with the conditional update
    guarded by [status = 'waiting'], and when that claim matches a row it
    cancels [newSession] and returns the claimed session (now [playing]
    with the requester in slot 2) instead; when the claim matches no
    single row, the inserted session is returned. *)
Theorem createWaitingSession_double_check :
  forall (env : Env) (w0 : World) (g p : uuid) (newSession : GameSession)
         (w : World),
  cws_insert env w0 g p = (newSession, w) ->
  (forall ow, find_waiting (env 12 w) g p (Some (id newSession)) = Some ow ->
     id ow <> id newSession /\ status ow = waiting /\ player2_id ow = None
     /\ neqb (player1_id ow) p = true) /\
  (find_waiting (env 12 w) g p (Some (id newSession)) = None ->
     createWaitingSession env w0 g p
     = (mkResp 200 (BMatched (Some newSession) (partykit_host (env 12 w))),
        env 12 w)) /\
  (forall ow row,
     find_waiting (env 12 w) g p (Some (id newSession)) = Some ow ->
     filter (claimable (id ow)) (game_sessions (env 13 (env 12 w))) = [row] ->
     exists joined wf,
       createWaitingSession env w0 g p
         = (mkResp 200 (BMatched (Some joined) (partykit_host wf)), wf)
       /\ id joined = id ow /\ player2_id joined = Some p
       /\ status joined = playing
       /\ (forall s, In s (game_sessions wf) -> id s = id newSession ->
                     status s = cancelled)) /\
  (forall ow,
     find_waiting (env 12 w) g p (Some (id newSession)) = Some ow ->
     single (filter (claimable (id ow)) (game_sessions (env 13 (env 12 w))))
       = None ->
     exists wf, createWaitingSession env w0 g p
                = (mkResp 200 (BMatched (Some newSession) (partykit_host wf)), wf)).
Proof.
  intros env w0 g p ns w Hins.
  unfold createWaitingSession; rewrite Hins.
  split; [|split; [|split]].
  - intros ow Hf; destruct (find_waiting_spec _ _ _ _ _ Hf)
      as [_ [_ [Hs [Hn [H2 He]]]]].
    repeat split; auto.
  - intros Hf; unfold cws_recheck; rewrite Hf; reflexivity.
  - intros ow row Hf Hrow; unfold cws_recheck; rewrite Hf.
    unfold update_sessions at 1; simpl.
    rewrite map_ext_filter_true, Hrow; simpl.
    assert (Hcl : claimable (id ow) row = true).
    { assert (In row (filter (claimable (id ow)) (game_sessions (env 13 (env 12 w)))))
        by (rewrite Hrow; left; reflexivity).
      apply filter_In in H; tauto. }
    match goal with
      |- exists _ _, (_, ?W) = _ /\ _ => eexists; exists W end.
    split; [reflexivity|].
    unfold claimable in Hcl; apply andb_true_iff in Hcl; destruct Hcl as [Hid _].
    apply Nat.eqb_eq in Hid.
    simpl; repeat split; auto.
    intros s Hs Hsid.
    simpl in Hs; apply in_map_iff in Hs; destruct Hs as [x [Hx _]].
    rewrite <- Hx in Hsid |- *.
    destruct (Nat.eqb (id x) (id ns)) eqn:Ex; [reflexivity|].
    apply Nat.eqb_neq in Ex; contradiction.
  - intros ow Hf Hnone; unfold cws_recheck; rewrite Hf.
    destruct (update_sessions _ _ _) as [rows w2] eqn:E2.
    assert (Hr : single rows = None).
    { unfold update_sessions in E2; injection E2 as <- _.
      rewrite map_ext_filter_true.
      destruct (filter _ _) as [|a [|b t]]; try reflexivity; discriminate. }
    rewrite Hr; eexists; reflexivity.
Qed.

(** Witness of [createWaitingSession_double_check]: alice (7) inserts her
    waiting session 50 in game 100 while bob's waiting session 99 is
    written concurrently, just before her re-query. *)
Definition bob_waiting : GameSession :=
  mkSession 99 100 (Some 8) None None (Some 0) waiting empty_choices None 0 0.

Definition w_lobby : World :=
  mkWorld [mkPlayer 7 "alice" "alice" None; mkPlayer 8 "bob" "bob" None]
          [mkGame 100 "rps" true None] [] [] [] None 10 50.

Definition env_race : Env :=
  fun n w => if Nat.eqb n 12
             then mkWorld (players w) (games w) (game_sessions w ++ [bob_waiting])
                          (rankings w) (relay_log w) (partykit_host w)
                          (clock w) (next_id w)
             else w.

Lemma createWaitingSession_double_check_witness :
  exists joined wf,
    createWaitingSession env_race w_lobby 100 7
      = (mkResp 200 (BMatched (Some joined) (partykit_host wf)), wf)
    /\ id joined = 99 /\ player2_id joined = Some 7
    /\ status joined = playing
    /\ (forall s, In s (game_sessions wf) -> id s = 50 -> status s = cancelled).
Proof.
  destruct (createWaitingSession_double_check env_race w_lobby 100 7
              (fst (cws_insert env_race w_lobby 100 7))
              (snd (cws_insert env_race w_lobby 100 7)) eq_refl)
    as [_ [_ [H _]]].
  exact (H bob_waiting bob_waiting eq_refl eq_refl).
Defined.

(* ------------------------------------------------------------------ *)
(** ** C7: active sessions of a player, requests served one at a time *)

(** Two active rows sharing a participant in one game are the same row. *)
Definition pairwise_active (l : list GameSession) : Prop :=
  forall g p s1 s2, In s1 l -> In s2 l ->
    own_active g p s1 = true -> own_active g p s2 = true -> id s1 = id s2.

(** The store invariant: session ids are unique (the primary key) and below
    the id generator, and no player is in two active sessions of a game. *)
Definition Inv (w : World) : Prop :=
  NoDup (map id (game_sessions w))
  /\ (forall s, In s (game_sessions w) -> id s < next_id w)
  /\ pairwise_active (game_sessions w).

Lemma Inv_empty w : game_sessions w = [] -> Inv w.
Proof.
  intros E; unfold Inv, pairwise_active; rewrite E; simpl.
  split; [constructor|split; intros; contradiction].
Qed.

Lemma nodup_id_eq (l : list GameSession) a b :
  NoDup (map id l) -> In a l -> In b l -> id a = id b -> a = b.
Proof.
  induction l as [|x t IH]; simpl; [contradiction|].
  intros Hn Ha Hb Hab; apply NoDup_cons_iff in Hn; destruct Hn as [Hx Hn].
  destruct Ha as [<-|Ha], Hb as [<-|Hb]; auto.
  - exfalso; apply Hx; rewrite Hab; apply in_map; exact Hb.
  - exfalso; apply Hx; rewrite <- Hab; apply in_map; exact Ha.
Qed.

Lemma filter_unique (pr : GameSession -> bool) (l : list GameSession) x :
  NoDup (map id l) -> In x l -> pr x = true ->
  (forall s, In s l -> pr s = true -> id s = id x) ->
  filter pr l = [x].
Proof.
  induction l as [|a t IH]; simpl; [contradiction|].
  intros Hn Hx Hp Hall; apply NoDup_cons_iff in Hn; destruct Hn as [Ha Hn].
  assert (Hnone : forall s, In s t -> pr s = true -> id s <> id a).
  { intros s Hs Hps E; apply Ha; rewrite <- E; apply in_map; exact Hs. }
  destruct Hx as [<-|Hx].
  - rewrite Hp; f_equal.
    destruct (filter pr t) as [|b u] eqn:E; [reflexivity|].
    exfalso.
    assert (Hb : In b (filter pr t)) by (rewrite E; left; reflexivity).
    apply filter_In in Hb; destruct Hb as [Hb Hpb].
    apply (Hnone b Hb Hpb), Hall; auto.
  - destruct (pr a) eqn:Epa.
    + exfalso; apply Ha; rewrite (Hall a (or_introl eq_refl) Epa);
        apply in_map; exact Hx.
    + apply IH; auto.
Qed.

Lemma count_active_le_1 (l : list GameSession) g p :
  NoDup (map id l) -> pairwise_active l ->
  List.length (filter (own_active g p) l) <= 1.
Proof.
  induction l as [|a t IH]; simpl; [lia|].
  intros Hn Hpw; apply NoDup_cons_iff in Hn; destruct Hn as [Ha Hn].
  assert (Hpt : pairwise_active t)
    by (intros g' p' s1 s2 H1 H2; apply Hpw; right; assumption).
  destruct (own_active g p a) eqn:E; simpl; [|apply IH; assumption].
  destruct (filter (own_active g p) t) as [|b u] eqn:F; simpl; [lia|].
  exfalso.
  assert (Hb : In b (filter (own_active g p) t)) by (rewrite F; left; reflexivity).
  apply filter_In in Hb; destruct Hb as [Hb Hob].
  apply Ha; rewrite (Hpw g p a b (or_introl eq_refl) (or_intror Hb) E Hob).
  apply in_map; exact Hb.
Qed.

(** A new store whose active rows for [(g', p')] come from active rows
    of the old store with the same id, except for [(g, pid)], whose only
    active row is the row [k]. *)
Lemma pairwise_step (l l2 : list GameSession) g pid k :
  pairwise_active l ->
  (forall s2 g' p', In s2 l2 -> own_active g' p' s2 = true ->
     ~ (g' = g /\ p' = pid) ->
     exists s, In s l /\ id s = id s2 /\ own_active g' p' s = true) ->
  (forall s2, In s2 l2 -> own_active g pid s2 = true -> id s2 = k) ->
  pairwise_active l2.
Proof.
  intros Hpw HA HB g' p' s1 s2 H1 H2 Ho1 Ho2.
  destruct (Nat.eq_dec g' g) as [Hg|Hg]; [destruct (Nat.eq_dec p' pid) as [Hp|Hp]|].
  - subst g' p'; rewrite (HB s1 H1 Ho1), (HB s2 H2 Ho2); reflexivity.
  - destruct (HA s1 g' p' H1 Ho1) as [x1 [Hx1 [Hi1 Hy1]]]; [tauto|].
    destruct (HA s2 g' p' H2 Ho2) as [x2 [Hx2 [Hi2 Hy2]]]; [tauto|].
    rewrite <- Hi1, <- Hi2; exact (Hpw g' p' x1 x2 Hx1 Hx2 Hy1 Hy2).
  - destruct (HA s1 g' p' H1 Ho1) as [x1 [Hx1 [Hi1 Hy1]]]; [tauto|].
    destruct (HA s2 g' p' H2 Ho2) as [x2 [Hx2 [Hi2 Hy2]]]; [tauto|].
    rewrite <- Hi1, <- Hi2; exact (Hpw g' p' x1 x2 Hx1 Hx2 Hy1 Hy2).
Qed.

Lemma pairwise_mono (l l2 : list GameSession) :
  pairwise_active l ->
  (forall s2 g' p', In s2 l2 -> own_active g' p' s2 = true ->
     exists s, In s l /\ id s = id s2 /\ own_active g' p' s = true) ->
  pairwise_active l2.
Proof.
  intros Hpw HA g' p' s1 s2 H1 H2 Ho1 Ho2.
  destruct (HA s1 g' p' H1 Ho1) as [x1 [Hx1 [Hi1 Hy1]]].
  destruct (HA s2 g' p' H2 Ho2) as [x2 [Hx2 [Hi2 Hy2]]].
  rewrite <- Hi1, <- Hi2; exact (Hpw g' p' x1 x2 Hx1 Hx2 Hy1 Hy2).
Qed.

Lemma own_active_inactive g p s :
  is_active_status (status s) = false -> own_active g p s = false.
Proof. unfold own_active; intros H; rewrite H, andb_false_r; reflexivity. Qed.

Lemma Inv_frame w w' :
  Inv w -> game_sessions w' = game_sessions w -> next_id w <= next_id w' -> Inv w'.
Proof.
  intros [Hn [Hlt Hpw]] Hs Hid; unfold Inv; rewrite Hs.
  split; [exact Hn|split; [intros s Hi; specialize (Hlt s Hi); lia|exact Hpw]].
Qed.

Lemma Inv_relay_post w k kd u : Inv w -> Inv (relay_post w k kd u).
Proof. intros H; apply (Inv_frame w); [exact H|reflexivity|simpl; lia]. Qed.

Lemma map_id_upd (pr : GameSession -> bool) (f : GameSession -> GameSession)
    t (l : list GameSession) :
  (forall s, id (f s) = id s) ->
  map id (map (fun s => if pr s then touch t (f s) else s) l) = map id l.
Proof.
  intros Hf; rewrite map_map; apply map_ext; intros s.
  destruct (pr s); simpl; [apply Hf|reflexivity].
Qed.

(** A write that keeps the ids and only deactivates rows keeps [Inv]. *)
Lemma Inv_update_eq w pr f rows w' :
  update_sessions w pr f = (rows, w') -> Inv w ->
  (forall s, id (f s) = id s) ->
  (forall g p s, own_active g p (f s) = true -> own_active g p s = true) ->
  Inv w'.
Proof.
  unfold update_sessions; intros E [Hn [Hlt Hpw]] Hf Ho.
  injection E as _ <-; unfold Inv; simpl.
  split; [rewrite map_id_upd by exact Hf; exact Hn|split].
  - intros s Hs; apply in_map_iff in Hs; destruct Hs as [x [<- Hx]].
    destruct (pr x); simpl; [rewrite Hf|]; apply Hlt; exact Hx.
  - apply (pairwise_mono _ _ Hpw); intros s2 g' p' Hs2 Ho2.
    apply in_map_iff in Hs2; destruct Hs2 as [x [<- Hx]].
    exists x; split; [exact Hx|].
    destruct (pr x); simpl; [rewrite Hf; split; [reflexivity|]|split; [reflexivity|exact Ho2]].
    apply Ho; exact Ho2.
Qed.

Lemma next_id_insert_ranking w g pid wp k :
  next_id w <= next_id (insert_ranking w g pid wp k).
Proof. unfold insert_ranking; destruct existsb; simpl; lia. Qed.

Lemma next_id_record_ranking w s pid b k :
  next_id w <= next_id (record_ranking w s pid b k).
Proof.
  unfold record_ranking.
  destruct (find_player_by_id w pid); [|lia].
  destruct (single _) as [er|];
    [destruct (streak_count er <? _)|];
    match goal with
    | |- context [max_by ?k ?l] => destruct (max_by k l)
    end; unfold set_champion, set_games, update_ranking, set_rankings; simpl;
    try lia; apply next_id_insert_ranking.
Qed.

Lemma Inv_record_ranking w s pid b k : Inv w -> Inv (record_ranking w s pid b k).
Proof.
  intros H; apply (Inv_frame w); [exact H|apply sessions_record_ranking|].
  apply next_id_record_ranking.
Qed.

Ltac destruct_matches :=
  repeat match goal with
         | |- context [match ?x with _ => _ end] =>
             let E := fresh "E" in destruct x eqn:E
         end.

Ltac own_inactive :=
  let g := fresh "g" in let p := fresh "p" in let s := fresh "s" in
  let H := fresh "H" in
  intros g p s H; first [ exact H
                        | rewrite own_active_inactive in H by reflexivity;
                          discriminate H ].

Lemma Inv_resolve_round w s pid b gsid rc c1 c2 :
  Inv w -> Inv (snd (resolve_round w s pid b gsid rc c1 c2)).
Proof.
  intros HI; unfold resolve_round; destruct_matches; simpl;
    repeat first [apply Inv_relay_post | apply Inv_record_ranking];
    (eapply Inv_update_eq; [eassumption|exact HI|intros; reflexivity|own_inactive]).
Qed.

Lemma Inv_choose w sid c ck : Inv w -> Inv (snd (choose w sid c ck)).
Proof.
  intros HI; unfold choose, choose_env, no_env; cbv beta zeta.
  destruct_matches; simpl; try exact HI;
    repeat first [apply Inv_relay_post | apply Inv_resolve_round];
    try exact HI;
    (eapply Inv_update_eq; [eassumption|exact HI|intros; reflexivity|own_inactive]).
Qed.

Lemma Inv_abandon w sid ck : Inv w -> Inv (snd (abandon w sid ck)).
Proof.
  intros HI; unfold abandon; destruct_matches; simpl; try exact HI;
    repeat apply Inv_relay_post;
    (eapply Inv_update_eq; [eassumption|exact HI|intros; reflexivity|own_inactive]).
Qed.

Lemma own_active_claim t g' p' pid s :
  own_active g' p' (touch t (claim_row pid s))
  = Nat.eqb (game_id s) g' && (oeqb (player1_id s) (Some p') || Nat.eqb pid p').
Proof. unfold own_active; simpl; rewrite andb_true_r; reflexivity. Qed.

Lemma own_active_waiting g' p' s :
  status s = waiting ->
  own_active g' p' s
  = Nat.eqb (game_id s) g' && (oeqb (player1_id s) (Some p') || oeqb (player2_id s) (Some p')).
Proof. unfold own_active; intros ->; simpl; rewrite andb_true_r; reflexivity. Qed.

Lemma claimable_id k s : claimable k s = true -> id s = k.
Proof.
  unfold claimable; intros H; apply andb_true_iff in H; destruct H as [H _].
  apply Nat.eqb_eq; exact H.
Qed.

(** The pairing write of step 5 keeps [Inv] when the requester has no
    active session left in the game. *)
Lemma Inv_claim w g pid ws rows w' :
  Inv w ->
  (forall s, In s (game_sessions w) -> own_active g pid s = false) ->
  In ws (game_sessions w) -> game_id ws = g -> status ws = waiting ->
  update_sessions w (claimable (id ws)) (claim_row pid) = (rows, w') ->
  Inv w'.
Proof.
  intros [Hn [Hlt Hpw]] H0 Hws Hg Hst E.
  unfold update_sessions in E; injection E as _ <-.
  unfold Inv; simpl.
  split; [rewrite map_id_upd by reflexivity; exact Hn|split].
  - intros s Hs; apply in_map_iff in Hs; destruct Hs as [x [<- Hx]].
    destruct (claimable (id ws) x); simpl; apply Hlt; exact Hx.
  - apply (pairwise_step (game_sessions w) _ g pid (id ws) Hpw).
    + intros s2 g' p' Hs2 Ho2 Hne.
      apply in_map_iff in Hs2; destruct Hs2 as [x [<- Hx]].
      destruct (claimable (id ws) x) eqn:Ec.
      * assert (x = ws) as ->
          by (apply (nodup_id_eq (game_sessions w)); auto; apply claimable_id; exact Ec).
        exists ws; split; [exact Hws|split; [reflexivity|]].
        rewrite own_active_claim in Ho2; rewrite own_active_waiting by exact Hst.
        apply andb_true_iff in Ho2; destruct Ho2 as [Hg' Ho2].
        rewrite Hg'; simpl.
        apply orb_true_iff in Ho2; destruct Ho2 as [Hp1|Hp]; [rewrite Hp1; reflexivity|].
        apply Nat.eqb_eq in Hp; apply Nat.eqb_eq in Hg'.
        exfalso; apply Hne; split; congruence.
      * exists x; split; [exact Hx|split; [reflexivity|exact Ho2]].
    + intros s2 Hs2 Ho2.
      apply in_map_iff in Hs2; destruct Hs2 as [x [<- Hx]].
      destruct (claimable (id ws) x) eqn:Ec.
      * simpl; apply claimable_id; exact Ec.
      * rewrite (H0 x Hx) in Ho2; discriminate.
Qed.

Lemma nodup_snoc (l : list nat) a : NoDup l -> ~ In a l -> NoDup (l ++ [a]).
Proof.
  induction l as [|x t IH]; simpl; intros Hn Ha.
  - constructor; [intros []|constructor].
  - apply NoDup_cons_iff in Hn; destruct Hn as [Hx Hn].
    constructor.
    + rewrite in_app_iff; simpl; intros [H|[H|[]]]; [contradiction|apply Ha; left; symmetry; exact H].
    + apply IH; tauto.
Qed.

(** The double-check of [createWaitingSession], run alone on the store
    [w'] that holds the requester's new waiting row [ns] appended to [w]. *)
Lemma Inv_recheck w ns g pid w' :
  Inv w ->
  (forall s, In s (game_sessions w) -> own_active g pid s = false) ->
  game_sessions w' = game_sessions w ++ [ns] ->
  next_id w' = S (next_id w) -> id ns = next_id w ->
  game_id ns = g -> player1_id ns = Some pid -> player2_id ns = None ->
  Inv (snd (cws_recheck no_env w' ns g pid)).
Proof.
  intros [Hn [Hlt Hpw]] H0 Hs' Hn' Hid Hg Hp1 Hp2.
  assert (HnL : NoDup (map id (game_sessions w'))).
  { rewrite Hs', map_app; simpl; apply nodup_snoc; [exact Hn|].
    rewrite Hid; intros Hin; apply in_map_iff in Hin; destruct Hin as [x [Hx Hin]].
    specialize (Hlt x Hin); lia. }
  assert (HltL : forall s, In s (game_sessions w') -> id s < S (next_id w)).
  { intros s; rewrite Hs', in_app_iff; simpl; intros [H|[<-|[]]];
      [specialize (Hlt s H); lia|lia]. }
  assert (Hns_l : forall x, In x (game_sessions w') -> id x <> id ns ->
                  In x (game_sessions w)).
  { intros x; rewrite Hs', in_app_iff; simpl; intros [H|[<-|[]]] Hne;
      [exact H|congruence]. }
  unfold cws_recheck, no_env; cbv beta.
  destruct (find_waiting w' g pid (Some (id ns))) as [ow|] eqn:Ef.
  2:{ simpl; unfold Inv; rewrite Hn'.
      split; [exact HnL|split; [exact HltL|]].
      apply (pairwise_step (game_sessions w) _ g pid (id ns) Hpw).
      - intros s2 g' p' Hs2 Ho2 Hne.
        rewrite Hs', in_app_iff in Hs2; simpl in Hs2.
        destruct Hs2 as [Hs2|[<-|[]]]; [exists s2; auto|].
        exfalso; apply Hne.
        unfold own_active in Ho2; rewrite Hp1, Hp2 in Ho2; simpl in Ho2.
        apply andb_true_iff in Ho2; destruct Ho2 as [Ho2 Hp].
        apply andb_true_iff in Ho2; destruct Ho2 as [Hg' _].
        rewrite orb_false_r in Hp.
        apply Nat.eqb_eq in Hg'; apply Nat.eqb_eq in Hp; split; congruence.
      - intros s2 Hs2 Ho2.
        rewrite Hs', in_app_iff in Hs2; simpl in Hs2.
        destruct Hs2 as [Hs2|[<-|[]]]; [|reflexivity].
        rewrite (H0 s2 Hs2) in Ho2; discriminate. }
  destruct (find_waiting_spec _ _ _ _ _ Ef) as [How [Hgo [Hsto [Hno [H2o Hexo]]]]].
  specialize (Hexo _ eq_refl).
  assert (Hf : filter (claimable (id ow)) (game_sessions w') = [ow]).
  { apply filter_unique; auto.
    - unfold claimable; rewrite Nat.eqb_refl, Hsto; reflexivity.
    - intros s _ Hs; apply claimable_id; exact Hs. }
  unfold update_sessions at 1; rewrite map_ext_filter_true, Hf; simpl.
  apply Inv_relay_post.
  unfold update_sessions; simpl.
  unfold Inv; simpl; rewrite Hn'.
  split; [rewrite !map_id_upd by reflexivity; exact HnL|split].
  - intros s Hs; apply in_map_iff in Hs; destruct Hs as [y [<- Hy]].
    apply in_map_iff in Hy; destruct Hy as [x [<- Hx]].
    destruct (claimable (id ow) x); simpl;
      match goal with |- context [if ?c then _ else _] => destruct c end;
      simpl; apply HltL; exact Hx.
  - apply (pairwise_step (game_sessions w) _ g pid (id ow) Hpw).
    + intros s2 g' p' Hs2 Ho2 Hne.
      apply in_map_iff in Hs2; destruct Hs2 as [y [<- Hy]].
      apply in_map_iff in Hy; destruct Hy as [x [<- Hx]].
      destruct (Nat.eqb (id (if claimable (id ow) x
                              then touch (clock w') (claim_row pid x) else x)) (id ns))
        eqn:Ec.
      * rewrite own_active_inactive in Ho2 by reflexivity; discriminate.
      * assert (Hxn : id x <> id ns)
          by (intros E; destruct (claimable (id ow) x); simpl in Ec;
              rewrite E, Nat.eqb_refl in Ec; discriminate).
        destruct (claimable (id ow) x) eqn:Ecl.
        -- assert (x = ow) as ->
             by (apply (nodup_id_eq (game_sessions w')); auto;
                 apply claimable_id; exact Ecl).
           exists ow; split; [apply Hns_l; auto|split; [reflexivity|]].
           rewrite own_active_claim in Ho2; rewrite own_active_waiting by exact Hsto.
           apply andb_true_iff in Ho2; destruct Ho2 as [Hg' Ho2].
           rewrite Hg'; simpl.
           apply orb_true_iff in Ho2; destruct Ho2 as [Ho1|Hp];
             [rewrite Ho1; reflexivity|].
           apply Nat.eqb_eq in Hp; apply Nat.eqb_eq in Hg'.
           exfalso; apply Hne; split; congruence.
        -- exists x; split; [apply Hns_l; auto|split; [reflexivity|exact Ho2]].
    + intros s2 Hs2 Ho2.
      apply in_map_iff in Hs2; destruct Hs2 as [y [<- Hy]].
      apply in_map_iff in Hy; destruct Hy as [x [<- Hx]].
      destruct (Nat.eqb (id (if claimable (id ow) x
                              then touch (clock w') (claim_row pid x) else x)) (id ns))
        eqn:Ec.
      * rewrite own_active_inactive in Ho2 by reflexivity; discriminate.
      * destruct (claimable (id ow) x) eqn:Ecl; [simpl; apply claimable_id; exact Ecl|].
        simpl in Ec.
        assert (Hxn : id x <> id ns) by (intros E; rewrite E, Nat.eqb_refl in Ec; discriminate).
        rewrite (H0 x (Hns_l x Hx Hxn)) in Ho2; discriminate.
Qed.

Lemma Inv_createWaitingSession w g pid :
  Inv w ->
  (forall s, In s (game_sessions w) -> own_active g pid s = false) ->
  Inv (snd (createWaitingSession no_env w g pid)).
Proof.
  intros HI H0; unfold createWaitingSession.
  destruct (cws_insert no_env w g pid) as [ns w'] eqn:E.
  unfold cws_insert, insert_session, no_env in E; cbv beta zeta in E.
  injection E as <- <-.
  apply (Inv_recheck w); auto.
Qed.

Lemma Inv_requestMatch w sl ck : Inv w -> Inv (snd (requestMatch no_env w sl ck)).
Proof.
  intros HI; unfold requestMatch, no_env; cbv beta zeta.
  destruct (String.eqb sl ""); [exact HI|].
  destruct (find_player w ck) as [pl|]; [|exact HI].
  destruct (single _) as [gm|]; [|exact HI].
  destruct (update_sessions w (own_active (g_id gm) (p_id pl)) (set_status cancelled))
    as [r4 w4] eqn:E4.
  assert (HI4 : Inv w4)
    by (eapply Inv_update_eq; [exact E4|exact HI|intros; reflexivity|own_inactive]).
  assert (H04 : forall s, In s (game_sessions w4)
                          -> own_active (g_id gm) (p_id pl) s = false).
  { unfold update_sessions in E4; injection E4 as _ <-; simpl.
    intros s Hs; apply in_map_iff in Hs; destruct Hs as [x [<- _]].
    destruct (own_active (g_id gm) (p_id pl) x) eqn:Ex; [|exact Ex].
    apply own_active_inactive; reflexivity. }
  destruct (find_waiting w4 (g_id gm) (p_id pl) None) as [ws|] eqn:Ef.
  - destruct (find_waiting_spec _ _ _ _ _ Ef) as [Hws [Hg [Hst _]]].
    destruct (update_sessions w4 (claimable (id ws)) (claim_row (p_id pl)))
      as [rows w7] eqn:E7.
    assert (HI7 : Inv w7) by (eapply Inv_claim; eauto).
    destruct (single rows) eqn:Es.
    + apply (Inv_frame w7); [exact HI7|reflexivity|simpl; lia].
    + exfalso.
      destruct HI4 as [Hn4 _].
      unfold update_sessions in E7; injection E7 as <- _.
      rewrite map_ext_filter_true, (filter_unique _ _ ws Hn4 Hws) in Es.
      * discriminate.
      * unfold claimable; rewrite Nat.eqb_refl, Hst; reflexivity.
      * intros s _ Hs; apply claimable_id; exact Hs.
  - apply Inv_createWaitingSession; auto.
Qed.

Lemma Inv_step w o : Inv w -> Inv (step w o).
Proof.
  destruct o; simpl;
    [apply Inv_requestMatch | apply Inv_choose | apply Inv_abandon].
Qed.

Lemma Inv_run ops w : Inv w -> Inv (run ops w).
Proof.
  unfold run; revert w; induction ops as [|o t IH]; simpl; intros w H;
    [exact H|apply IH, Inv_step, H].
Qed.

(** C7 (counterexample): the cancellation of step 3 is limited to the
    requested game. Alice asks for a match in game "rps" and then in game
    "rps2": she ends up in two waiting sessions at once. *)
Definition w_two_games : World :=
  mkWorld [mkPlayer 7 "alice" "alice" None; mkPlayer 8 "bob" "bob" None]
          [mkGame 100 "rps" true None; mkGame 101 "rps2" true None]
          [] [] [] None 10 50.

Lemma active_sessions_two_games_cex :
  List.length
    (filter (fun s => is_active_status (status s)
                      && (oeqb (player1_id s) (Some 7) || oeqb (player2_id s) (Some 7)))
       (game_sessions (run [OpMatch "rps" "alice"; OpMatch "rps2" "alice"]
                           w_two_games)))
  = 2.
Proof. vm_compute; reflexivity. Qed.

(** C7 (amended): with requests served one at a time, starting from a
    store that satisfies [Inv] (for instance one without sessions), after
    any sequence of match, choose and abandon requests a player is a
    participant of at most one active ([waiting] or [playing]) session of
    each game. *)
Theorem one_active_session_per_game :
  forall ops w g p, Inv w ->
  List.length (filter (own_active g p) (game_sessions (run ops w))) <= 1.
Proof.
  intros ops w g p HI.
  destruct (Inv_run ops w HI) as [Hn [_ Hpw]].
  apply count_active_le_1; assumption.
Qed.

(** Witness of [one_active_session_per_game]: alice asks twice, bob joins
    in between. *)
Lemma one_active_session_per_game_witness :
  List.length
    (filter (own_active 100 7)
       (game_sessions (run [OpMatch "rps" "alice"; OpMatch "rps" "bob";
                            OpMatch "rps" "alice"] w_lobby))) <= 1.
Proof.
  apply one_active_session_per_game; apply Inv_empty; reflexivity.
Defined.

(* ------------------------------------------------------------------ *)
(** ** C6: ranking rows, requests served one at a time *)

(** The ranking row read by the upsert ([existingRank]): its streak. *)
Definition rank_lookup (w : World) (g p : uuid) : option nat :=
  match single (filter (rank_key g p) (rankings w)) with
  | Some r => Some (streak_count r)
  | None => None
  end.

(** The rankings invariant: ids are unique and below the id generator, and
    the unique index on [(game_id, player_id)] holds. *)
Definition RInv (w : World) : Prop :=
  NoDup (map rank_id (rankings w))
  /\ (forall r, In r (rankings w) -> rank_id r < next_id w)
  /\ (forall g p r1 r2, In r1 (rankings w) -> In r2 (rankings w) ->
        rank_key g p r1 = true -> rank_key g p r2 = true -> rank_id r1 = rank_id r2).

(** From [w] to [w']: [RInv] is kept and no ranking row read by a pair
    loses streak. *)
Definition ranks_grow (w w' : World) : Prop :=
  RInv w ->
  RInv w' /\
  (forall g p k, rank_lookup w g p = Some k ->
     exists k', rank_lookup w' g p = Some k' /\ k <= k').

Lemma RInv_one w r : rankings w = [r] -> rank_id r < next_id w -> RInv w.
Proof.
  intros E Hlt; unfold RInv; rewrite E; simpl.
  split; [constructor; [intros []|constructor]|split].
  - intros x [<-|[]]; exact Hlt.
  - intros g p r1 r2 [<-|[]] [<-|[]] _ _; reflexivity.
Qed.

Lemma single_some {A} (l : list A) x : single l = Some x -> l = [x].
Proof. destruct l as [|a [|b t]]; simpl; intros H; try discriminate; congruence. Qed.

Lemma nodup_key_eq {A} (f : A -> nat) (l : list A) a b :
  NoDup (map f l) -> In a l -> In b l -> f a = f b -> a = b.
Proof.
  induction l as [|x t IH]; simpl; [contradiction|].
  intros Hn Ha Hb Hab; apply NoDup_cons_iff in Hn; destruct Hn as [Hx Hn].
  destruct Ha as [<-|Ha], Hb as [<-|Hb]; auto.
  - exfalso; apply Hx; rewrite Hab; apply in_map; exact Hb.
  - exfalso; apply Hx; rewrite <- Hab; apply in_map; exact Ha.
Qed.

Lemma grow_refl w : ranks_grow w w.
Proof. intros H; split; [exact H|intros g p k Hk; exists k; split; [exact Hk|lia]]. Qed.

Lemma grow_trans w1 w2 w3 :
  ranks_grow w1 w2 -> ranks_grow w2 w3 -> ranks_grow w1 w3.
Proof.
  intros H12 H23 H1; destruct (H12 H1) as [H2 M12]; destruct (H23 H2) as [H3 M23].
  split; [exact H3|].
  intros g p k Hk; destruct (M12 g p k Hk) as [k2 [Hk2 L2]].
  destruct (M23 g p k2 Hk2) as [k3 [Hk3 L3]].
  exists k3; split; [exact Hk3|lia].
Qed.

Lemma grow_frame w w' :
  rankings w' = rankings w -> next_id w <= next_id w' -> ranks_grow w w'.
Proof.
  intros Hr Hn [A [B C]]; unfold RInv, rank_lookup; rewrite Hr.
  split; [split; [exact A|split; [intros r Hi; specialize (B r Hi); lia|exact C]]|].
  intros g p k Hk; exists k; split; [exact Hk|lia].
Qed.

Lemma grow_update_eq w pr f rows w' :
  update_sessions w pr f = (rows, w') -> ranks_grow w w'.
Proof.
  unfold update_sessions; intros E; injection E as _ <-.
  apply grow_frame; [reflexivity|simpl; lia].
Qed.

Lemma grow_insert_session_eq w mk s w' :
  insert_session w mk = (s, w') -> ranks_grow w w'.
Proof.
  unfold insert_session; intros E; injection E as _ <-.
  apply grow_frame; [reflexivity|simpl; lia].
Qed.

Lemma grow_relay_post w k kd u : ranks_grow w (relay_post w k kd u).
Proof. apply grow_frame; [reflexivity|simpl; lia]. Qed.

Lemma grow_set_champion w g c : ranks_grow w (set_champion w g c).
Proof. apply grow_frame; [reflexivity|simpl; lia]. Qed.

Lemma grow_update_ranking w er wp k :
  In er (rankings w) -> streak_count er < k ->
  ranks_grow w (update_ranking w (rank_id er) wp k).
Proof.
  intros Her Hlt [Hn [Hb Hk]].
  set (U := fun r => if Nat.eqb (rank_id r) (rank_id er)
                     then mkRanking (rank_id r) (r_game_id r) (r_player_id r)
                                    (nickname wp) (country_flag wp) k (clock w)
                     else r).
  assert (Hid : forall r, rank_id (U r) = rank_id r)
    by (intros r; unfold U; destruct (Nat.eqb _ _); reflexivity).
  assert (Hkey : forall g p r, rank_key g p (U r) = rank_key g p r)
    by (intros g p r; unfold U; destruct (Nat.eqb _ _); reflexivity).
  assert (Hr : rankings (update_ranking w (rank_id er) wp k) = map U (rankings w))
    by reflexivity.
  unfold RInv, rank_lookup; rewrite Hr; simpl.
  split; [split; [|split]|].
  - rewrite map_map; rewrite (map_ext _ rank_id Hid); exact Hn.
  - intros r Hi; apply in_map_iff in Hi; destruct Hi as [x [<- Hx]].
    rewrite Hid; apply Hb; exact Hx.
  - intros g p r1 r2 H1 H2 K1 K2.
    apply in_map_iff in H1; destruct H1 as [x1 [<- Hx1]].
    apply in_map_iff in H2; destruct H2 as [x2 [<- Hx2]].
    rewrite !Hid; rewrite Hkey in K1, K2; exact (Hk g p x1 x2 Hx1 Hx2 K1 K2).
  - intros g p k0 Hk0.
    rewrite filter_map_commute by (intros; apply Hkey).
    destruct (single (filter (rank_key g p) (rankings w))) as [r|] eqn:Es;
      [|discriminate].
    injection Hk0 as <-.
    rewrite (single_some _ _ Es); simpl.
    eexists; split; [reflexivity|].
    unfold U; destruct (Nat.eqb (rank_id r) (rank_id er)) eqn:E; simpl; [|lia].
    assert (Hin : In r (rankings w)).
    { assert (In r (filter (rank_key g p) (rankings w)))
        by (rewrite (single_some _ _ Es); left; reflexivity).
      apply filter_In in H; tauto. }
    apply Nat.eqb_eq in E.
    rewrite (nodup_key_eq rank_id (rankings w) r er Hn Hin Her E); lia.
Qed.

Lemma rank_key_new g' p' i g pid nm fl k t :
  rank_key g' p' (mkRanking i g (Some pid) nm fl k t) = true -> g = g' /\ pid = p'.
Proof.
  unfold rank_key; simpl; intros H; apply andb_true_iff in H.
  destruct H as [H1 H2]; apply Nat.eqb_eq in H1; apply Nat.eqb_eq in H2; auto.
Qed.

Lemma grow_insert_ranking w g pid wp k : ranks_grow w (insert_ranking w g pid wp k).
Proof.
  unfold insert_ranking.
  destruct (existsb (rank_key g pid) (rankings w)) eqn:Ex; [apply grow_refl|].
  intros [Hn [Hb Hk]].
  assert (Hno : forall r, In r (rankings w) -> rank_key g pid r = false).
  { intros r Hr; destruct (rank_key g pid r) eqn:E; [|reflexivity].
    rewrite <- Ex; symmetry; apply existsb_exists; exists r; auto. }
  unfold RInv, rank_lookup; simpl.
  split; [split; [|split]|].
  - rewrite map_app; simpl; apply nodup_snoc; [exact Hn|].
    intros Hi; apply in_map_iff in Hi; destruct Hi as [x [Hx Hi]].
    specialize (Hb x Hi); lia.
  - intros r; rewrite in_app_iff; simpl; intros [Hi|[<-|[]]];
      [specialize (Hb r Hi); lia|simpl; lia].
  - intros g' p' r1 r2; rewrite !in_app_iff; simpl.
    intros [H1|[<-|[]]] [H2|[<-|[]]] K1 K2.
    + exact (Hk g' p' r1 r2 H1 H2 K1 K2).
    + destruct (rank_key_new _ _ _ _ _ _ _ _ _ K2) as [<- <-].
      rewrite (Hno r1 H1) in K1; discriminate.
    + destruct (rank_key_new _ _ _ _ _ _ _ _ _ K1) as [<- <-].
      rewrite (Hno r2 H2) in K2; discriminate.
    + reflexivity.
  - intros g' p' k0 Hk0.
    destruct (single (filter (rank_key g' p') (rankings w))) as [r|] eqn:Es;
      [|discriminate].
    injection Hk0 as <-.
    assert (Hin : In r (rankings w) /\ rank_key g' p' r = true).
    { assert (In r (filter (rank_key g' p') (rankings w)))
        by (rewrite (single_some _ _ Es); left; reflexivity).
      apply filter_In in H; exact H. }
    destruct Hin as [Hin Kr].
    rewrite filter_app, (single_some _ _ Es); simpl.
    match goal with
    | |- context [rank_key g' p' (mkRanking ?a ?b ?c ?d ?e ?f ?h)] =>
        destruct (rank_key g' p' (mkRanking a b c d e f h)) eqn:K; simpl
    end.
    + destruct (rank_key_new _ _ _ _ _ _ _ _ _ K) as [<- <-].
      rewrite (Hno r Hin) in Kr; discriminate.
    + exists (streak_count r); split; [reflexivity|lia].
Qed.

Lemma grow_record_ranking w s pid b k : ranks_grow w (record_ranking w s pid b k).
Proof.
  unfold record_ranking; cbv zeta.
  destruct (find_player_by_id w pid) as [wp|]; [|apply grow_refl].
  destruct (single (filter (rank_key (game_id s) pid) (rankings w))) as [er|] eqn:Es.
  - assert (Her : In er (rankings w)).
    { assert (In er (filter (rank_key (game_id s) pid) (rankings w)))
        by (rewrite (single_some _ _ Es); left; reflexivity).
      apply filter_In in H; tauto. }
    match goal with
    | |- context [streak_count er <? ?x] => destruct (streak_count er <? x) eqn:Elt
    end;
    match goal with
    | |- context [max_by ?kf ?l] => destruct (max_by kf l)
    end;
    try (eapply grow_trans; [|apply grow_set_champion]);
    try apply grow_refl;
    (apply grow_update_ranking; [exact Her|apply Nat.ltb_lt; exact Elt]).
  - match goal with
    | |- context [max_by ?kf ?l] => destruct (max_by kf l)
    end;
    try (eapply grow_trans; [|apply grow_set_champion]);
    apply grow_insert_ranking.
Qed.

Ltac grow_chain :=
  repeat first
    [ apply grow_refl
    | eapply grow_trans; [|apply grow_relay_post]
    | eapply grow_trans; [|apply grow_record_ranking]
    | eapply grow_trans; [|eapply grow_update_eq; eassumption]
    | eapply grow_trans; [|eapply grow_insert_session_eq; eassumption] ].

Lemma grow_resolve_round w s pid b gsid rc c1 c2 :
  ranks_grow w (snd (resolve_round w s pid b gsid rc c1 c2)).
Proof. unfold resolve_round; destruct_matches; simpl; grow_chain. Qed.

Lemma grow_choose w sid c ck : ranks_grow w (snd (choose w sid c ck)).
Proof.
  unfold choose, choose_env, no_env; cbv beta zeta.
  destruct_matches; simpl; grow_chain;
    (eapply grow_trans; [apply grow_refl|apply grow_resolve_round]).
Qed.

Lemma grow_abandon w sid ck : ranks_grow w (snd (abandon w sid ck)).
Proof. unfold abandon; destruct_matches; simpl; grow_chain. Qed.

Lemma grow_createWaitingSession w g pid :
  ranks_grow w (snd (createWaitingSession no_env w g pid)).
Proof.
  unfold createWaitingSession, cws_insert, cws_recheck, no_env; cbv beta zeta.
  destruct_matches; simpl; grow_chain.
Qed.

Lemma grow_requestMatch w sl ck : ranks_grow w (snd (requestMatch no_env w sl ck)).
Proof.
  unfold requestMatch; destruct_matches; simpl; unfold no_env in *; grow_chain;
    (eapply grow_trans; [|apply grow_createWaitingSession]); grow_chain.
Qed.

Lemma grow_step w o : ranks_grow w (step w o).
Proof.
  destruct o; simpl;
    [apply grow_requestMatch | apply grow_choose | apply grow_abandon].
Qed.

Lemma grow_run ops w : ranks_grow w (run ops w).
Proof.
  unfold run; revert w; induction ops as [|o t IH]; simpl; intros w;
    [apply grow_refl|eapply grow_trans; [apply grow_step|apply IH]].
Qed.

Lemma rankings_update_eq w pr f rows w' :
  update_sessions w pr f = (rows, w') -> rankings w' = rankings w.
Proof. unfold update_sessions; intros E; injection E as _ <-; reflexivity. Qed.

Lemma rankings_insert_eq w mk s w' :
  insert_session w mk = (s, w') -> rankings w' = rankings w.
Proof. unfold insert_session; intros E; injection E as _ <-; reflexivity. Qed.

Ltac rank_eq_chain :=
  repeat match goal with
         | H : update_sessions _ _ _ = (_, ?w1) |- context [rankings ?w1] =>
             rewrite (rankings_update_eq _ _ _ _ _ H)
         | H : insert_session _ _ = (_, ?w1) |- context [rankings ?w1] =>
             rewrite (rankings_insert_eq _ _ _ _ H)
         end; reflexivity.

Lemma rankings_createWaitingSession w g pid :
  rankings (snd (createWaitingSession no_env w g pid)) = rankings w.
Proof.
  unfold createWaitingSession, cws_insert, cws_recheck, no_env; cbv beta zeta.
  destruct_matches; simpl; rank_eq_chain.
Qed.

Lemma rankings_requestMatch w sl ck :
  rankings (snd (requestMatch no_env w sl ck)) = rankings w.
Proof.
  unfold requestMatch; destruct_matches; simpl; unfold no_env in *;
    rewrite ?rankings_createWaitingSession; rank_eq_chain.
Qed.

Lemma rankings_abandon w sid ck : rankings (snd (abandon w sid ck)) = rankings w.
Proof. unfold abandon; destruct_matches; simpl; rank_eq_chain. Qed.

Lemma update_row_shape w pr f rows w' u :
  update_sessions w pr f = (rows, w') -> single rows = Some u ->
  exists x, pr x = true /\ u = touch (clock w) (f x).
Proof.
  unfold update_sessions; intros E Es; injection E as <- _.
  rewrite map_ext_filter_true in Es.
  assert (Hu : In u (map (fun s => touch (clock w) (f s)) (filter pr (game_sessions w))))
    by (rewrite (single_some _ _ Es); left; reflexivity).
  apply in_map_iff in Hu; destruct Hu as [x [<- Hx]].
  apply filter_In in Hx; exists x; split; [tauto|reflexivity].
Qed.

Lemma oeqb_some a p : oeqb a (Some p) = true -> a = Some p.
Proof.
  destruct a as [x|]; simpl; intros H; [apply Nat.eqb_eq in H; subst; reflexivity|discriminate].
Qed.

(** The ranking rows change in a resolution only on a decisive round won
    by the caller. *)
Lemma resolve_round_rankings w s pid b gsid rc c1 c2 :
  rankings (snd (resolve_round w s pid b gsid rc c1 c2)) <> rankings w ->
  exists u rr,
    fst (resolve_round w s pid b gsid rc c1 c2) = mkResp 200 (BSession (Some u))
    /\ round_result u = Some rr /\ winner rr <> draw /\ winner_id u = Some pid.
Proof.
  unfold resolve_round; destruct_matches; simpl; intros H;
    try (exfalso; apply H; rank_eq_chain).
  all: destruct (update_row_shape _ _ _ _ _ _ ltac:(eassumption) ltac:(eassumption))
         as [x [_ ->]].
  all: match goal with
       | Ec : negb _ && oeqb _ _ = true |- _ =>
           apply andb_true_iff in Ec; destruct Ec as [Ed Ew];
           apply oeqb_some in Ew
       end.
  all: eexists; eexists; split; [reflexivity|]; simpl.
  all: split; [reflexivity|]; split;
    [simpl; intros Hd; rewrite Hd in Ed; discriminate Ed|rewrite Ew; reflexivity].
Qed.

Lemma choose_rankings_change w sid c ck :
  rankings (snd (choose w sid c ck)) <> rankings w ->
  exists gsid c0 pl u rr,
    sid = Some gsid /\ c = Some c0 /\ find_player w ck = Some pl /\
    fst (choose w sid c ck) = mkResp 200 (BSession (Some u)) /\
    round_result u = Some rr /\ winner rr <> draw /\ winner_id u = Some (p_id pl).
Proof.
  unfold choose, choose_env, no_env; cbv beta zeta.
  destruct sid as [gsid|]; [|simpl; intros H; contradiction H; reflexivity].
  destruct c as [c0|]; [|simpl; intros H; contradiction H; reflexivity].
  destruct (find_player w ck) as [pl|] eqn:Ep;
    [|simpl; intros H; contradiction H; reflexivity].
  destruct_matches; simpl; intros H;
    try (exfalso; apply H; rank_eq_chain).
  all: destruct (resolve_round_rankings _ _ _ _ _ _ _ _ H)
         as [u [rr [Hr [Hrr [Hw Hwid]]]]].
  all: exists gsid, c0, pl, u, rr; repeat split; assumption.
Qed.

(** Witness world: bob chose scissors in session 1 (carried streak 2);
    alice's best in game 100 is the ranking row 60 with streak 2. *)
Definition w_ranked : World :=
  mkWorld [mkPlayer 7 "alice" "alice" None; mkPlayer 8 "bob" "bob" None]
          [mkGame 100 "rps" true None]
          [mkSession 1 100 (Some 7) (Some 8) None (Some 2) playing
                     (mkChoices None (Some scissors)) None 0 3]
          [mkRanking 60 100 (Some 7) "alice" None 2 0] [] None 10 61.

Lemma filter_map_key g p (f : Ranking -> Ranking) l :
  (forall r, rank_key g p (f r) = rank_key g p r) ->
  filter (rank_key g p) (map f l) = map f (filter (rank_key g p) l).
Proof.
  intros Hf; induction l as [|a t IH]; simpl; [reflexivity|].
  rewrite Hf; destruct (rank_key g p a); simpl; rewrite IH; reflexivity.
Qed.

Lemma lookup_update_ranking w er wp k g p :
  single (filter (rank_key g p) (rankings w)) = Some er ->
  rank_lookup (update_ranking w (rank_id er) wp k) g p = Some k.
Proof.
  intros H; apply single_some in H.
  unfold rank_lookup, update_ranking, set_rankings; simpl.
  rewrite filter_map_key.
  - rewrite H; simpl; rewrite Nat.eqb_refl; reflexivity.
  - intros r; destruct (Nat.eqb (rank_id r) (rank_id er)); reflexivity.
Qed.

Lemma rank_lookup_set_champion w g c g' p :
  rank_lookup (set_champion w g c) g' p = rank_lookup w g' p.
Proof. reflexivity. Qed.

Lemma record_ranking_strict w s pid isP2 n er :
  single (filter (rank_key (game_id s) pid) (rankings w)) = Some er ->
  rankings (record_ranking w s pid isP2 n) <> rankings w ->
  exists k, rank_lookup (record_ranking w s pid isP2 n) (game_id s) pid = Some k
            /\ streak_count er < k.
Proof.
  intros Hs Hne; unfold record_ranking in *; cbv zeta in *.
  destruct (find_player_by_id w pid) as [wp|]; [|contradiction].
  rewrite Hs in Hne |- *.
  match goal with |- context [streak_count er <? ?K] => set (sfr := K) in * end.
  destruct (streak_count er <? sfr) eqn:Elt.
  - exists sfr; split; [|apply Nat.ltb_lt; exact Elt].
    destruct (max_by _ _); [rewrite rank_lookup_set_champion|];
      apply lookup_update_ranking; exact Hs.
  - exfalso; apply Hne; destruct (max_by _ _); reflexivity.
Qed.

(** C6: with requests served one at a time, starting from a store whose
    rankings satisfy [RInv] (unique ids below the id generator, one row
    per [(game_id, player_id)] as the unique index requires): after any
    sequence of requests the row of a pair that had one still exists and
    its [streak_count] has not decreased; a request changes the rankings
    table only when it is a [choose] that resolved a decisive round
    (winner not [draw]) won by the caller; and the ranking write, when it
    changes the table while the pair already has its row, leaves in that
    row a streak strictly above the stored one. *)
Theorem ranking_streak_monotone :
  (forall ops w g p k, RInv w -> rank_lookup w g p = Some k ->
     exists k', rank_lookup (run ops w) g p = Some k' /\ k <= k') /\
  (forall w o, rankings (step w o) <> rankings w ->
     exists gsid c ck pl u rr,
       o = OpChoose (Some gsid) (Some c) ck /\ find_player w ck = Some pl /\
       fst (choose w (Some gsid) (Some c) ck) = mkResp 200 (BSession (Some u)) /\
       round_result u = Some rr /\ winner rr <> draw /\
       winner_id u = Some (p_id pl)) /\
  (forall w s pid isP2 n er,
     single (filter (rank_key (game_id s) pid) (rankings w)) = Some er ->
     rankings (record_ranking w s pid isP2 n) <> rankings w ->
     exists k, rank_lookup (record_ranking w s pid isP2 n) (game_id s) pid = Some k
               /\ streak_count er < k).
Proof.
  split; [|split].
  - intros ops w g p k HI Hk.
    destruct (grow_run ops w HI) as [_ M]; exact (M g p k Hk).
  - intros w [sl ck|sid c ck|sid ck]; simpl; intros H.
    + exfalso; apply H; apply rankings_requestMatch.
    + destruct (choose_rankings_change w sid c ck H)
        as [gsid [c0 [pl [u [rr [-> [-> [Hp [Hr [Hrr [Hw Hwid]]]]]]]]]]].
      exists gsid, c0, ck, pl, u, rr; repeat split; assumption.
    + exfalso; apply H; apply rankings_abandon.
  - exact record_ranking_strict.
Qed.

(** Witness of [ranking_streak_monotone]: alice completes session 1 with
    rock and wins; her row of game 100 is read before and after; and her
    row, holding 2, is rewritten with the streak 3. *)
Lemma ranking_streak_monotone_witness :
  (exists k', rank_lookup (run [OpChoose (Some 1) (Some rock) "alice"] w_ranked) 100 7
              = Some k' /\ 2 <= k') /\
  (exists k, rank_lookup (record_ranking w_ranked
                (mkSession 1 100 (Some 7) (Some 8) (Some 7) (Some 3) finished
                           (mkChoices (Some rock) (Some scissors)) None 0 3)
                7 false 3) 100 7 = Some k /\ 2 < k).
Proof.
  destruct ranking_streak_monotone as [H [_ H3]]; split.
  - apply (H _ w_ranked 100 7 2).
    + apply (RInv_one w_ranked (mkRanking 60 100 (Some 7) "alice" None 2 0));
        [reflexivity|apply Nat.ltb_lt; reflexivity].
    + reflexivity.
  - apply (H3 w_ranked
             (mkSession 1 100 (Some 7) (Some 8) (Some 7) (Some 3) finished
                        (mkChoices (Some rock) (Some scissors)) None 0 3)
             7 false 3 (mkRanking 60 100 (Some 7) "alice" None 2 0)).
    + reflexivity.
    + intros Heq; vm_compute in Heq; discriminate Heq.
Defined.

(* ================================================================== *)
(** * Further code of the same files and of their callees *)

(* ------------------------------------------------------------------ *)
(** ** lib/partykit (src/unnamed/part_005, first module): the server side
    of the relay calls *)

Module PartyKit.
Import Relay.

(** [s.startsWith(p)] *)
Fixpoint startsWith (s p : string) : bool :=
  match p, s with
  | EmptyString, _ => true
  | String a p', String b s' => Ascii.eqb a b && startsWith s' p'
  | String _ _, EmptyString => false
  end.

(** [getPartykitBaseUrl]; [host] is [NEXT_PUBLIC_PARTYKIT_HOST], [None]
    when unset. *)
Definition getPartykitBaseUrl (host : option string) : string :=
  match host with
  | None => ""
  | Some h =>
      if String.eqb h "" then ""
      else if startsWith h "localhost" then ("http://" ++ h)%string
      else ("https://" ++ h)%string
  end.

Definition PARTY_NAME : string := "game".

(** [postToPartyKit(sessionId, payload)]: [None] when it returns [false]
    without calling [fetch]; otherwise the URL and the request it sends.
    [secret] is [PARTYKIT_SECRET] ([""] when unset); the body is
    [JSON.stringify(payload)], of which the room reads [type] and
    [session]. *)
Definition postToPartyKit (host : option string) (secret : string)
    (sessionId : string) (ty : string) (session : JVal)
    : option (string * Request) :=
  let baseUrl := getPartykitBaseUrl host in
  if String.eqb baseUrl "" then None
  else
    let url := (baseUrl ++ "/parties/" ++ PARTY_NAME ++ "/" ++ sessionId)%string in
    Some (url, mkReq "POST"
                 (if String.eqb secret "" then None
                  else Some ("Bearer " ++ secret)%string)
                 (Some (JStr ty, session))).

Definition broadcastSessionUpdate host secret sessionId session :=
  postToPartyKit host secret sessionId "session_update" session.

Definition broadcastSessionEnd host secret sessionId session :=
  postToPartyKit host secret sessionId "session_end" session.

End PartyKit.

(* ------------------------------------------------------------------ *)
(** ** lib/session.ts *)

Module Cookie.

(** The [sa_session_id] cookie as the browser holds it ([None]: absent). *)
Definition Jar := option string.

(** [getSessionId()]: [fresh] is the [uuidv4()] it would generate. *)
Definition getSessionId (jar : Jar) (fresh : string) : string * Jar :=
  match jar with
  | Some v => if String.eqb v "" then (fresh, Some fresh) else (v, jar)
  | None => (fresh, Some fresh)
  end.

(** [getSessionIdIfExists()] *)
Definition getSessionIdIfExists (jar : Jar) : option string :=
  match jar with Some v => Some v | None => None end.

End Cookie.

(* ------------------------------------------------------------------ *)
(** ** GET /api/game/session (session/route.ts): the client's poll *)

(** [req_sid] is [searchParams.get('sessionId')]; [None] when absent or
    empty. The handler only reads the store. *)
Definition getSession (w : World) (req_sid : option uuid) (cookie : string)
    : Response :=
  match req_sid with
  | None => mkResp 400 (BError "sessionId required" None)
  | Some sid =>
    match find_player w cookie with
    | None => mkResp 400 (BError "Player not found" None)
    | Some player =>
      match session_by_id w sid with
      | None => mkResp 404 (BError "Session not found" None)
      | Some session =>
        if oeqb (player1_id session) (Some (p_id player))
           || oeqb (player2_id session) (Some (p_id player))
        then mkResp 200 (BSession (Some session))
        else mkResp 403 (BError "Not a participant" None)
      end
    end
  end.

(* ------------------------------------------------------------------ *)
(** ** POST /api/game/choose (choose/route.ts, second handler, lines
    227-405) *)

(** The route's own [determineWinner] (lines 234-244) has the body of
    lib/rps's, so [determineWinner] stands for both. *)

(** Ranking upsert of lines 349-386: no champion summary. *)
Definition legacy_record_ranking (w : World) (g winnerId : uuid)
    (newStreak : nat) : World :=
  match find_player_by_id w winnerId with
  | None => w
  | Some winnerPlayer =>
      match single (filter (rank_key g winnerId) (rankings w)) with
      | Some existingRank =>
          if streak_count existingRank <? newStreak
          then update_ranking w (rank_id existingRank) winnerPlayer newStreak
          else w
      | None => insert_ranking w g winnerId winnerPlayer newStreak
      end
  end.

(** [updateData] of lines 328-337: [winner_id] and [status] are written
    only when the result is not a draw. *)
Definition legacy_resolve_row (rc : RoundChoices) (rr : RoundResult)
    (k : nat) (winnerId : option uuid) (s : GameSession) : GameSession :=
  let decided := negb (Outcome_eqb (winner rr) draw) in
  mkSession (id s) (game_id s) (player1_id s) (player2_id s)
            (if decided then winnerId else winner_id s)
            (Some k) (if decided then finished else status s) rc (Some rr)
            (created_at s) (updated_at s).

Definition choose_legacy (w : World) (req_sid : option uuid)
    (req_choice : option RPSChoice) (cookie : string) : Response * World :=
  match req_sid, req_choice with
  | Some gsid, Some c =>
    match find_player w cookie with
    | None => (mkResp 400 (BError "Player not found" None), w)
    | Some player =>
      match single (filter (fun s => Nat.eqb (id s) gsid
                                     && Status_eqb (status s) playing)
                           (game_sessions w)) with
      | None =>
          (mkResp 404 (BError "Game session not found or not playing" None), w)
      | Some session =>
        let pid := p_id player in
        let isPlayer1 := oeqb (player1_id session) (Some pid) in
        let isPlayer2 := oeqb (player2_id session) (Some pid) in
        if negb isPlayer1 && negb isPlayer2
        then (mkResp 403 (BError "Not a participant" None), w)
        else
        let existingChoices := round_choices session in
        let mine := if isPlayer1 then rc_player1 existingChoices
                    else rc_player2 existingChoices in
        match mine with
        | Some _ => (mkResp 400 (BError "Already chose" None), w)
        | None =>
          let updatedChoices :=
            if isPlayer1 then mkChoices (Some c) (rc_player2 existingChoices)
            else mkChoices (rc_player1 existingChoices) (Some c) in
          match rc_player1 updatedChoices, rc_player2 updatedChoices with
          | Some c1, Some c2 =>
            let result := determineWinner c1 c2 in
            let base := match current_streak session with
                        | Some k => k | None => 0 end in
            let '(winnerId, newStreak) :=
              match result with
              | player1 => (player1_id session, base + 1)
              | player2 => (player2_id session, 1)
              | draw => (None, base)
              end in
            let roundResult := mkResult result c1 c2 in
            let '(rows, w1) :=
              update_sessions w (fun s => Nat.eqb (id s) gsid)
                (legacy_resolve_row updatedChoices roundResult newStreak winnerId) in
            match single rows with
            | None => (mkResp 500 (BError "Failed to submit choice" None), w1)
            | Some updated =>
                let w2 := match result, winnerId with
                          | draw, _ => w1
                          | _, Some wid =>
                              legacy_record_ranking w1 (game_id session) wid newStreak
                          | _, None => w1
                          end in
                (mkResp 200 (BSession (Some updated)), w2)
            end
          | _, _ =>
            let '(rows, w1) := update_sessions w (fun s => Nat.eqb (id s) gsid)
                                 (set_round_choices updatedChoices) in
            match single rows with
            | None => (mkResp 500 (BError "Failed to submit choice" None), w1)
            | Some updated => (mkResp 200 (BSession (Some updated)), w1)
            end
          end
        end
      end
    end
  | _, _ => (mkResp 400 (BError "Invalid sessionId or choice" None), w)
  end.

(* ------------------------------------------------------------------ *)
(** ** The earlier room server (src/unnamed/part_000) *)

Module RelayV0.
Import Relay.

(** The class has no [ended] field: the room is its connections. *)
Definition Room0 := list Conn.

(** [this.room.broadcast(m, without)] *)
Definition broadcast0 (cs : Room0) (m : Msg) (without : list nat) : list Out :=
  map (fun c => Send (conn_id c) m)
      (filter (fun c => negb (existsb (Nat.eqb (conn_id c)) without)) cs).

(** [onRequest], lines 22-39 ([getSecret] and [verifySecret], lines
    8-17, are those of part_001). *)
Definition onRequest0 (secret : string) (cs : Room0) (r : Request)
    : nat * Room0 * list Out :=
  if negb (String.eqb (req_method r) "POST") then (405, cs, [])
  else if negb (verifySecret secret r) then (401, cs, [])
  else match req_body r with
       | None => (400, cs, [])
       | Some (ty, sess) =>
           if is_jstr ty "session_update"
              && (match sess with JNull => false | _ => true end)
           then (200, cs, broadcast0 cs (MSessionUpdate sess) [])
           else (400, cs, [])
       end.

(** The runtime adds the connection; [onConnect] does nothing. *)
Definition onConnect0 (cs : Room0) (c : nat) : Room0 * list Out :=
  (cs ++ [mkConn c None], []).

Definition onMessage0 (cs : Room0) (c : nat) (f : Frame) : Room0 * list Out :=
  match f with
  | Some (ty, JStr pid) =>
      if is_jstr ty "join"
      then (map (fun x => if Nat.eqb (conn_id x) c then mkConn c (Some pid) else x) cs,
            [])
      else (cs, [])
  | _ => (cs, [])
  end.

(** The runtime removes the connection, then calls [onClose] with it. *)
Definition onClose0 (cs : Room0) (c : nat) : Room0 * list Out :=
  let cs' := filter (fun x => negb (Nat.eqb (conn_id x) c)) cs in
  match find (fun x => Nat.eqb (conn_id x) c) cs with
  | Some x =>
      match conn_playerId x with
      | Some pid =>
          if String.eqb pid "" then (cs', [])
          else (cs', broadcast0 cs (MPlayerLeft pid) [c])
      | None => (cs', [])
      end
  | None => (cs', [])
  end.

Definition room_step0 (secret : string) (cs : Room0) (e : Event)
    : Room0 * list Out :=
  match e with
  | ERequest r => let '(_, cs', o) := onRequest0 secret cs r in (cs', o)
  | EConnect c => onConnect0 cs c
  | EMessage c f => onMessage0 cs c f
  | EClose c => onClose0 cs c
  end.

Fixpoint room_run0 (secret : string) (cs : Room0) (es : list Event)
    : Room0 * list Out :=
  match es with
  | [] => (cs, [])
  | e :: t =>
      let '(cs1, o1) := room_step0 secret cs e in
      let '(cs2, o2) := room_run0 secret cs1 t in
      (cs2, o1 ++ o2)
  end.

Definition is_close (o : Out) : bool :=
  match o with CloseConn _ _ _ => true | _ => false end.

End RelayV0.

(* ------------------------------------------------------------------ *)
(** ** [slugify] (src/src/app/api/admin/game-requests/[id]/route.ts,
    lines 11-19) *)

Module Slug.

(** Characters are bytes; the classes below are the ASCII ones of the
    regular expressions and of [toLowerCase] and [trim]. *)
Definition is_ws (a : Ascii.ascii) : bool :=
  let n := Ascii.nat_of_ascii a in ((9 <=? n) && (n <=? 13)) || Nat.eqb n 32.

Definition is_upper (a : Ascii.ascii) : bool :=
  let n := Ascii.nat_of_ascii a in (65 <=? n) && (n <=? 90).

Definition lower (a : Ascii.ascii) : Ascii.ascii :=
  if is_upper a then Ascii.ascii_of_nat (Ascii.nat_of_ascii a + 32) else a.

(** ['-'] *)
Definition dash : Ascii.ascii := Ascii.ascii_of_nat 45.

Definition is_dash (a : Ascii.ascii) : bool := Ascii.eqb a dash.

(** [a-z0-9-] *)
Definition is_slug_char (a : Ascii.ascii) : bool :=
  let n := Ascii.nat_of_ascii a in
  ((97 <=? n) && (n <=? 122)) || ((48 <=? n) && (n <=? 57)) || is_dash a.

(** [.toLowerCase()] *)
Fixpoint toLowerCase (s : string) : string :=
  match s with
  | EmptyString => EmptyString
  | String a t => String (lower a) (toLowerCase t)
  end.

Fixpoint trimStart (s : string) : string :=
  match s with
  | EmptyString => EmptyString
  | String a t => if is_ws a then trimStart t else s
  end.

Fixpoint trimEnd (s : string) : string :=
  match s with
  | EmptyString => EmptyString
  | String a t =>
      let t' := trimEnd t in
      if is_ws a && String.eqb t' "" then EmptyString else String a t'
  end.

(** [.trim()] *)
Definition trim (s : string) : string := trimEnd (trimStart s).

(** [.replace(/\s+/g, '-')]; [inrun]: the previous character was a
    whitespace. *)
Fixpoint ws_runs (inrun : bool) (s : string) : string :=
  match s with
  | EmptyString => EmptyString
  | String a t =>
      if is_ws a then (if inrun then ws_runs true t else String dash (ws_runs true t))
      else String a (ws_runs false t)
  end.

(** [.replace(/[^a-z0-9-]/g, '')] *)
Fixpoint keep_slug_chars (s : string) : string :=
  match s with
  | EmptyString => EmptyString
  | String a t => if is_slug_char a then String a (keep_slug_chars t)
                  else keep_slug_chars t
  end.

(** [.replace(/-+/g, '-')] *)
Fixpoint dash_runs (inrun : bool) (s : string) : string :=
  match s with
  | EmptyString => EmptyString
  | String a t =>
      if is_dash a then (if inrun then dash_runs true t else String a (dash_runs true t))
      else String a (dash_runs false t)
  end.

(** [.replace(/^-|-$/g, '')]: a leading and a trailing dash. *)
Definition strip_leading_dash (s : string) : string :=
  match s with
  | EmptyString => EmptyString
  | String a t => if is_dash a then t else s
  end.

Fixpoint strip_trailing_dash (s : string) : string :=
  match s with
  | EmptyString => EmptyString
  | String a t =>
      if is_dash a && String.eqb t "" then EmptyString
      else String a (strip_trailing_dash t)
  end.

Definition slugify (title : string) : string :=
  let s := strip_trailing_dash (strip_leading_dash
             (dash_runs false (keep_slug_chars (ws_runs false
               (trim (toLowerCase title)))))) in
  if String.eqb s "" then "game"%string else s.

(** What a slug looks like: non-empty, of [a-z0-9-], without a leading or
    trailing dash and without two dashes in a row. *)
Fixpoint all_slug_chars (s : string) : bool :=
  match s with
  | EmptyString => true
  | String a t => is_slug_char a && all_slug_chars t
  end.

Definition starts_dash (s : string) : bool :=
  match s with EmptyString => false | String a _ => is_dash a end.

Fixpoint ends_dash (s : string) : bool :=
  match s with
  | EmptyString => false
  | String a t => if String.eqb t "" then is_dash a else ends_dash t
  end.

Fixpoint no_double_dash (s : string) : bool :=
  match s with
  | EmptyString => true
  | String a t => negb (is_dash a && starts_dash t) && no_double_dash t
  end.

Definition valid_slug (s : string) : bool :=
  negb (String.eqb s "") && all_slug_chars s && no_double_dash s
  && negb (starts_dash s) && negb (ends_dash s).

End Slug.

(* ------------------------------------------------------------------ *)
(** ** POST /api/player (src/unnamed/part_010, second route, lines
    55-116) *)

Module PlayerRoute.

Inductive PlayerBody :=
| PBPlayer (p : option Player)          (* { player } *)
| PBError (msg : string).               (* { error } *)

Definition set_players (w : World) (l : list Player) (n : nat) : World :=
  mkWorld l (games w) (game_sessions w) (rankings w) (relay_log w)
          (partykit_host w) (S (clock w)) n.

(** [players.upsert({ session_id, nickname, last_seen_at },
    { onConflict: 'session_id' }).select(...).single()]: the row of the
    session id is updated, or a row is inserted with a fresh id. *)
Definition upsert_player (w : World) (sid nick : string) : Player * World :=
  match find (fun p => String.eqb (session_id p) sid) (players w) with
  | Some p =>
      (mkPlayer (p_id p) sid nick (country_flag p),
       set_players w
         (map (fun q => if String.eqb (session_id q) sid
                        then mkPlayer (p_id q) (session_id q) nick (country_flag q)
                        else q) (players w))
         (next_id w))
  | None =>
      let p := mkPlayer (next_id w) sid nick None in
      (p, set_players w (players w ++ [p]) (S (next_id w)))
  end.

(** A JS string is held as its UTF-8 bytes. [utf8_decode] splits it into
    code points, each with the bytes that encode it; a byte that does not
    start a well-formed sequence is one unit U+FFFD (the replacement
    [req.json()] decodes it to). *)
Definition is_cont (a : Ascii.ascii) : bool :=
  let n := Ascii.N_of_ascii a in (128 <=? n)%N && (n <=? 191)%N.

Definition in_range (lo hi n : N) : bool := (lo <=? n)%N && (n <=? hi)%N.

Definition cbits (a : Ascii.ascii) : N := (Ascii.N_of_ascii a - 128)%N.

Fixpoint utf8_decode (s : string) : list (N * string) :=
  match s with
  | EmptyString => []
  | String a t =>
    let b := Ascii.N_of_ascii a in
    let bad := (65533%N, String a EmptyString) :: utf8_decode t in
    if (b <? 128)%N then (b, String a EmptyString) :: utf8_decode t
    else if in_range 194 223 b then
      match t with
      | String c1 t1 =>
          if is_cont c1
          then (((b - 192) * 64 + cbits c1)%N,
                String a (String c1 EmptyString)) :: utf8_decode t1
          else bad
      | EmptyString => bad
      end
    else if in_range 224 239 b then
      match t with
      | String c1 (String c2 t2) =>
          if is_cont c1 && is_cont c2
          then (((b - 224) * 4096 + cbits c1 * 64 + cbits c2)%N,
                String a (String c1 (String c2 EmptyString))) :: utf8_decode t2
          else bad
      | _ => bad
      end
    else if in_range 240 244 b then
      match t with
      | String c1 (String c2 (String c3 t3)) =>
          if is_cont c1 && is_cont c2 && is_cont c3
          then (((b - 240) * 262144 + cbits c1 * 4096 + cbits c2 * 64
                 + cbits c3)%N,
                String a (String c1 (String c2 (String c3 EmptyString))))
               :: utf8_decode t3
          else bad
      | _ => bad
      end
    else bad
  end.

Fixpoint utf8_encode (l : list (N * string)) : string :=
  match l with
  | [] => EmptyString
  | (_, bytes) :: t => (bytes ++ utf8_encode t)%string
  end.

(** The code points [String.prototype.trim] removes: WhiteSpace (TAB, VT,
    FF, SP, NBSP, ZWNBSP and the Zs category) and LineTerminator (LF, CR,
    LS, PS). *)
Definition is_js_space (cp : N) : bool :=
  existsb (N.eqb cp) [9; 10; 11; 12; 13; 32; 160; 5760; 8232; 8233; 8239;
                      8287; 12288; 65279]%N
  || in_range 8192 8202 cp.

Fixpoint drop_spaces (l : list (N * string)) : list (N * string) :=
  match l with
  | x :: t => if is_js_space (fst x) then drop_spaces t else l
  | [] => []
  end.

(** [s.trim()] *)
Definition js_trim (s : string) : string :=
  utf8_encode (rev (drop_spaces (rev (drop_spaces (utf8_decode s))))).

(** [s.length]: UTF-16 code units, two for a code point above U+FFFF. *)
Definition js_length (s : string) : nat :=
  fold_right (fun x n => (if (65536 <=? fst x)%N then 2 else 1) + n) 0
             (utf8_decode s).

(** [POST]; [nickname] is [None] when absent or not a string, [sid] is
    what [getSessionId()] returned. An empty nickname ([!nickname]) fails
    the length test as well. *)
Definition postPlayer (w : World) (nickname : option string) (sid : string)
    : (nat * PlayerBody) * World :=
  match nickname with
  | None => ((400, PBError "Invalid nickname (2-20 chars)"), w)
  | Some n =>
      if (js_length (js_trim n) <? 2) || (20 <? js_length (js_trim n))
      then ((400, PBError "Invalid nickname (2-20 chars)"), w)
      else let '(p, w') := upsert_player w sid (js_trim n) in
           ((200, PBPlayer (Some p)), w')
  end.

(** [GET]: the player of the session cookie, or [null]. *)
Definition getPlayer (w : World) (sid : string) : nat * PlayerBody :=
  (200, PBPlayer (find_player w sid)).

End PlayerRoute.

(* ------------------------------------------------------------------ *)
(** ** PATCH /api/admin/game-requests/[id] (lines 4-125) *)

Module Admin.

(** The columns of [game_requests] and [games] the route reads and
    writes. *)
Record GameRequest := mkGR {
  gr_id : string;
  gr_title : string;
  gr_html_file_url : option string;
  gr_status : string
}.

Record GameRow := mkGameRow {
  gm_name : string;
  gm_slug : string;                     (* UNIQUE *)
  gm_html_file_url : option string;
  gm_is_active : bool;
  gm_order_index : nat
}.

Record Store := mkStore {
  game_requests : list GameRequest;
  game_rows : list GameRow
}.

Inductive ABody :=
| AOk (status : string)                 (* { ok: true, status } *)
| AError (msg : string).                (* { error } *)

(** [isAdminAuthorized]: [secret] is [ADMIN_SECRET] ([""] when unset),
    [header] the [x-admin-secret] header. *)
Definition isAdminAuthorized (secret : string) (header : option string) : bool :=
  if String.eqb secret "" then true
  else match header with Some h => String.eqb h secret | None => false end.

Definition find_request (st : Store) (id : string) : option GameRequest :=
  single (filter (fun r => String.eqb (gr_id r) id) (game_requests st)).

Definition set_request_status (st : Store) (id s : string) : Store :=
  mkStore (map (fun r => if String.eqb (gr_id r) id
                         then mkGR (gr_id r) (gr_title r) (gr_html_file_url r) s
                         else r) (game_requests st))
          (game_rows st).

(** [games.select('id').eq('slug', slug).maybeSingle()] is not null. *)
Definition slug_taken (st : Store) (slug : string) : bool :=
  match single (filter (fun g => String.eqb (gm_slug g) slug) (game_rows st)) with
  | Some _ => true
  | None => false
  end.

(** [games.insert(row)]: refused by the unique index on [slug]. *)
Definition insert_game (st : Store) (g : GameRow) : option Store :=
  if existsb (fun x => String.eqb (gm_slug x) (gm_slug g)) (game_rows st) then None
  else Some (mkStore (game_requests st) (game_rows st ++ [g])).

(** [PATCH]; [body] is [None] when [req.json()] throws, otherwise its
    [action] member when that is a string; [now36] is
    [Date.now().toString(36)]. *)
Definition patch (secret : string) (header : option string) (id : string)
    (body : option (option string)) (now36 : string) (st : Store)
    : (nat * ABody) * Store :=
  if negb (isAdminAuthorized secret header) then ((401, AError "Unauthorized"), st)
  else if String.eqb id "" then ((400, AError "ID required"), st)
  else match body with
  | None => ((400, AError "Invalid body"), st)
  | Some act =>
    let action := match act with
                  | Some a => if String.eqb a "approve" then Some true
                              else if String.eqb a "reject" then Some false
                              else None
                  | None => None
                  end in
    match action with
    | None => ((400, AError "action must be approve or reject"), st)
    | Some approve =>
      match find_request st id with
      | None => ((404, AError "Request not found"), st)
      | Some request =>
        if negb (String.eqb (gr_status request) "pending")
        then ((400, AError "Request is no longer pending"), st)
        else
        let newStatus := if approve then "approved"%string else "rejected"%string in
        let st1 := set_request_status st id newStatus in
        if approve then
          let slug0 := Slug.slugify (gr_title request) in
          let slug := if slug_taken st1 slug0
                      then (slug0 ++ "-" ++ now36)%string else slug0 in
          let orderIndex :=
            match max_by gm_order_index (game_rows st1) with
            | Some m => gm_order_index m
            | None => 0
            end + 1 in
          let html := match gr_html_file_url request with
                      | Some u => if String.eqb u "" then None else Some u
                      | None => None
                      end in
          match insert_game st1 (mkGameRow (gr_title request) slug html true orderIndex) with
          | None => ((500, AError "Approved but failed to add game"), st1)
          | Some st2 => ((200, AOk newStatus), st2)
          end
        else ((200, AOk newStatus), st1)
      end
    end
  end.

End Admin.

(* ------------------------------------------------------------------ *)
(** ** POST /api/match (match/route.ts, first handler, lines 11-122) *)

(** The first handler's [createWaitingSession] (lines 102-122): a plain
    insert with [current_streak: 0]. *)
Definition legacy_createWaitingSession (w : World) (g p : uuid)
    : Response * World :=
  let '(newSession, w1) :=
    insert_session w (fun i t => mkSession i g (Some p) None None (Some 0)
                                   waiting empty_choices None t t) in
  (mkResp 200 (BSession (Some newSession)), w1).

Definition requestMatch_legacy (w : World) (gameSlug cookie : string)
    : Response * World :=
  if String.eqb gameSlug "" then
    (mkResp 400 (BError "gameSlug required" None), w)
  else
  match find_player w cookie with
  | None => (mkResp 400 (BError "Player not found. Set nickname first." None), w)
  | Some player =>
    let pid := p_id player in
    match single (filter (fun x => String.eqb (slug x) gameSlug && is_active x)
                         (games w)) with
    | None => (mkResp 404 (BError "Game not found" None), w)
    | Some game =>
      let g := g_id game in
      (* step 3: newest own waiting/playing session *)
      match max_by created_at (filter (own_active g pid) (game_sessions w)) with
      | Some existingSession => (mkResp 200 (BSession (Some existingSession)), w)
      | None =>
        match find_waiting w g pid None with
        | Some waitingSession =>
            let '(rows, w1) := update_sessions w (claimable (id waitingSession))
                                               (claim_row pid) in
            match single rows with
            | None => legacy_createWaitingSession w1 g pid
            | Some updated => (mkResp 200 (BSession (Some updated)), w1)
            end
        | None => legacy_createWaitingSession w g pid
        end
      end
    end
  end.

(* ================================================================== *)
(** * Properties of the further code *)

(** [determineWinner] is antisymmetric: exchanging the seats exchanges
    the winner, and a draw stays a draw. *)
Theorem determineWinner_swap :
  forall c1 c2,
  determineWinner c2 c1 =
  match determineWinner c1 c2 with
  | player1 => player2 | player2 => player1 | draw => draw
  end.
Proof. intros [] []; reflexivity. Qed.

Module RelayMore.
Import Relay.

Lemma ended_onClose rm c : ended (fst (onClose rm c)) = ended rm.
Proof.
  unfold onClose; destruct (ended rm) eqn:E; [reflexivity|].
  destruct_matches; reflexivity.
Qed.

Lemma ended_onMessage rm c f : ended (fst (onMessage rm c f)) = ended rm.
Proof.
  unfold onMessage; destruct_matches; reflexivity.
Qed.

Lemma ended_onConnect rm c : ended (fst (onConnect rm c)) = ended rm.
Proof. unfold onConnect; destruct (ended rm); reflexivity. Qed.

Lemma room_step_ended secret rm e :
  ended rm = false -> ended (fst (room_step secret rm e)) = true ->
  exists r s, e = ERequest r /\ req_method r = "POST"%string
              /\ verifySecret secret r = true
              /\ req_body r = Some (JStr "session_end", s).
Proof.
  intros H0 H1; destruct e as [r|c|c f|c]; simpl in H1.
  - unfold onRequest in H1.
    destruct (String.eqb (req_method r) "POST") eqn:Em; simpl in H1;
      [|rewrite H0 in H1; discriminate].
    destruct (verifySecret secret r) eqn:Ev; simpl in H1;
      [|rewrite H0 in H1; discriminate].
    destruct (req_body r) as [[ty s]|] eqn:Eb; simpl in H1;
      [|rewrite H0 in H1; discriminate].
    destruct (is_jstr ty "session_update" && _); simpl in H1;
      [rewrite H0 in H1; discriminate|].
    destruct (is_jstr ty "session_end") eqn:Et; simpl in H1;
      [|rewrite H0 in H1; discriminate].
    exists r, s; split; [reflexivity|split; [apply String.eqb_eq; exact Em|]].
    split; [exact Ev|].
    destruct ty as [t| |]; simpl in Et; try discriminate.
    apply String.eqb_eq in Et; subst t; exact Eb.
  - rewrite ended_onConnect, H0 in H1; discriminate.
  - rewrite ended_onMessage, H0 in H1; discriminate.
  - rewrite ended_onClose, H0 in H1; discriminate.
Qed.

(** [onRequest]: a request that is not a POST is answered 405, and a POST
    that does not carry [Authorization: Bearer <PARTYKIT_SECRET>] while a
    secret is set is answered 401; either way the room is unchanged and
    nothing is broadcast. *)
Theorem onRequest_rejects_unauthenticated :
  forall secret rm r,
  (req_method r <> "POST"%string -> onRequest secret rm r = (405, rm, [])) /\
  (req_method r = "POST"%string -> verifySecret secret r = false ->
   onRequest secret rm r = (401, rm, [])).
Proof.
  intros secret rm r; unfold onRequest; split; intros Hm.
  - destruct (String.eqb (req_method r) "POST") eqn:Em;
      [apply String.eqb_eq in Em; contradiction|reflexivity].
  - intros Hv; rewrite Hm, Hv; reflexivity.
Qed.

Definition room_open : Room := mkRoom false [mkConn 1 (Some "alice"%string)].

Definition end_wrong_secret : Request :=
  mkReq "POST" (Some "Bearer guess"%string) (Some (JStr "session_end", JOther)).

Definition end_by_get : Request :=
  mkReq "GET" (Some "Bearer s3cret"%string) (Some (JStr "session_end", JOther)).

(** Witness of [onRequest_rejects_unauthenticated]: a [session_end] with
    the wrong bearer token, and one sent with GET, leave the room open. *)
Lemma onRequest_rejects_unauthenticated_witness :
  onRequest "s3cret" room_open end_wrong_secret = (401, room_open, []) /\
  onRequest "s3cret" room_open end_by_get = (405, room_open, []).
Proof.
  split.
  - apply (proj2 (onRequest_rejects_unauthenticated "s3cret" room_open
                    end_wrong_secret)); reflexivity.
  - apply (proj1 (onRequest_rejects_unauthenticated "s3cret" room_open
                    end_by_get)); discriminate.
Defined.

(** A room is retired only by the server: whatever the connections
    send or do, a room that has not ended ends during a run of events only
    if one of them is a POST that passes [verifySecret] and whose body has
    [type: 'session_end'], whatever its [session] member ([null] or
    absent included). *)
Theorem room_retired_only_by_authorized_end :
  forall secret rm es,
  ended rm = false -> ended (fst (room_run secret rm es)) = true ->
  exists r s, In (ERequest r) es /\ req_method r = "POST"%string
              /\ verifySecret secret r = true
              /\ req_body r = Some (JStr "session_end", s).
Proof.
  intros secret rm es; revert rm; induction es as [|e t IH]; simpl; intros rm H0 H1.
  - rewrite H0 in H1; discriminate.
  - destruct (room_step secret rm e) as [rm1 o1] eqn:E1.
    destruct (room_run secret rm1 t) as [rm2 o2] eqn:E2; simpl in H1.
    destruct (ended rm1) eqn:Ee.
    + destruct (room_step_ended secret rm e H0) as [r [s [-> Hr]]];
        [rewrite E1; exact Ee|].
      exists r, s; split; [left; reflexivity|exact Hr].
    + destruct (IH rm1 Ee) as [r [s [Hin Hr]]]; [rewrite E2; exact H1|].
      exists r, s; split; [right; exact Hin|exact Hr].
Qed.

Definition events_then_end : list Event :=
  [EConnect 2; EMessage 2 (Some (JStr "join", JStr "bob"));
   ERequest (mkReq "POST" (Some "Bearer s3cret"%string)
                   (Some (JStr "session_end", JNull)))].

(** Witness of [room_retired_only_by_authorized_end]: the room is ended by
    a [session_end] call without a session. *)
Lemma room_retired_only_by_authorized_end_witness :
  exists r s, In (ERequest r) events_then_end /\ req_method r = "POST"%string
              /\ verifySecret "s3cret" r = true
              /\ req_body r = Some (JStr "session_end", s).
Proof.
  apply (room_retired_only_by_authorized_end "s3cret" room_open);
    reflexivity.
Defined.

End RelayMore.

Module PartyKitProps.
Import Relay PartyKit.

Lemma append_cancel (p a b : string) :
  (p ++ a)%string = (p ++ b)%string -> a = b.
Proof. induction p as [|x p IH]; simpl; [auto|intros H; injection H; exact IH]. Qed.

(** [postToPartyKit] (and so [broadcastSessionUpdate] and
    [broadcastSessionEnd]) sends nothing when [NEXT_PUBLIC_PARTYKIT_HOST]
    is unset or empty. Otherwise it POSTs to
    [<base>/parties/game/<sessionId>], and the room running with the same
    [PARTYKIT_SECRET] (set or not) answers 200 to its [session_update] or
    [session_end] with a session, a [session_end] retiring the room; a
    room holding another, non-empty secret answers 401. *)
Theorem postToPartyKit_accepted_by_room :
  (forall host secret sid ty sess,
     (host = None \/ host = Some ""%string) ->
     postToPartyKit host secret sid ty sess = None) /\
  (forall host secret sid ty sess url r rm,
     postToPartyKit host secret sid ty sess = Some (url, r) ->
     sess <> JNull ->
     (ty = "session_update"%string \/ ty = "session_end"%string) ->
     url = (getPartykitBaseUrl host ++ "/parties/game/" ++ sid)%string /\
     fst (fst (onRequest secret rm r)) = 200 /\
     (ty = "session_end"%string -> ended (snd (fst (onRequest secret rm r))) = true) /\
     (forall secret', secret' <> ""%string -> secret' <> secret ->
        fst (fst (onRequest secret' rm r)) = 401)).
Proof.
  split.
  - intros host secret sid ty sess [-> | ->]; reflexivity.
  - intros host secret sid ty sess url r rm H Hs Hty.
    unfold postToPartyKit in H.
    destruct (String.eqb (getPartykitBaseUrl host) "") eqn:Eb; [discriminate|].
    injection H as <- Hr.
    split; [reflexivity|].
    assert (Hv : verifySecret secret r = true).
    { rewrite <- Hr; unfold verifySecret; simpl.
      destruct (String.eqb secret "") eqn:Es; [reflexivity|].
      apply String.eqb_refl. }
    assert (Hm : req_method r = "POST"%string) by (rewrite <- Hr; reflexivity).
    assert (Hb : req_body r = Some (JStr ty, sess)) by (rewrite <- Hr; reflexivity).
    split; [|split].
    + unfold onRequest; rewrite Hv, Hm, Hb; simpl.
      destruct Hty as [-> | ->]; simpl; [destruct sess; try reflexivity; contradiction|].
      reflexivity.
    + intros ->; unfold onRequest; rewrite Hv, Hm, Hb; reflexivity.
    + intros secret' Hne Hdiff.
      assert (Hv' : verifySecret secret' r = false).
      { rewrite <- Hr; unfold verifySecret.
        apply String.eqb_neq in Hne; rewrite Hne.
        destruct (String.eqb secret "") eqn:Es; simpl; [reflexivity|].
        apply String.eqb_neq; intros He.
        try apply (append_cancel "Bearer ") in He; congruence. }
      unfold onRequest; rewrite Hv', Hm; reflexivity.
Qed.

(** Witness of [postToPartyKit_accepted_by_room]: the [session_end] of
    session "s1" sent to a hosted relay. *)
Lemma postToPartyKit_accepted_by_room_witness :
  exists url r,
  postToPartyKit (Some "relay.example"%string) "s3cret"%string "s1"%string "session_end"%string JOther
    = Some (url, r) /\
  url = "https://relay.example/parties/game/s1"%string /\
  fst (fst (onRequest "s3cret"%string RelayMore.room_open r)) = 200 /\
  ended (snd (fst (onRequest "s3cret"%string RelayMore.room_open r))) = true /\
  fst (fst (onRequest "other"%string RelayMore.room_open r)) = 401.
Proof.
  destruct postToPartyKit_accepted_by_room as [_ H].
  eexists; eexists; split; [reflexivity|].
  destruct (H (Some "relay.example"%string) "s3cret"%string "s1"%string "session_end"%string JOther
              _ _ RelayMore.room_open eq_refl)
    as [Hu [H200 [Hend H401]]]; [discriminate|right; reflexivity|].
  split; [exact Hu|split; [exact H200|split; [apply Hend; reflexivity|]]].
  apply H401; discriminate.
Defined.

End PartyKitProps.

Module CookieProps.
Import Cookie.

(** [getSessionId] is stable: given a non-empty generated id, the id it
    returns is non-empty, is what [getSessionIdIfExists] then reads, and
    every later [getSessionId] returns it again without touching the
    cookie. *)
Theorem getSessionId_stable :
  forall jar fresh, fresh <> ""%string ->
  let '(sid, jar') := getSessionId jar fresh in
  sid <> ""%string /\ getSessionIdIfExists jar' = Some sid /\
  (forall fresh', getSessionId jar' fresh' = (sid, jar')).
Proof.
  intros jar fresh Hf.
  assert (Ef : String.eqb fresh ""%string = false) by (apply String.eqb_neq; exact Hf).
  destruct jar as [v|]; simpl; [destruct (String.eqb v ""%string) eqn:Ev|]; simpl.
  - split; [exact Hf|split; [reflexivity|intros; rewrite Ef; reflexivity]].
  - split; [apply String.eqb_neq; exact Ev|split; [reflexivity|]].
    intros; rewrite Ev; reflexivity.
  - split; [exact Hf|split; [reflexivity|intros; rewrite Ef; reflexivity]].
Qed.

(** Witness of [getSessionId_stable]: a first visit without cookie. *)
Lemma getSessionId_stable_witness :
  getSessionId None "3f2a"%string = ("3f2a"%string, Some "3f2a"%string) /\
  getSessionIdIfExists (Some "3f2a"%string) = Some "3f2a"%string /\
  getSessionId (Some "3f2a"%string) "9c0d"%string = ("3f2a"%string, Some "3f2a"%string).
Proof.
  pose proof (getSessionId_stable None "3f2a"%string ltac:(discriminate)) as H.
  simpl in H; destruct H as [_ [H1 H2]].
  split; [reflexivity|split; [exact H1|exact (H2 "9c0d"%string)]].
Defined.

End CookieProps.

(* ------------------------------------------------------------------ *)
(** ** Handlers of the store: rejected requests, abandon, first choice *)

Lemma resolve_round_status w s pid b gsid rc c1 c2 :
  http_status (fst (resolve_round w s pid b gsid rc c1 c2)) = 200 \/
  http_status (fst (resolve_round w s pid b gsid rc c1 c2)) = 500.
Proof. unfold resolve_round; destruct_matches; simpl; auto. Qed.

Lemma createWaitingSession_status env w g p :
  http_status (fst (createWaitingSession env w g p)) = 200.
Proof.
  unfold createWaitingSession; destruct (cws_insert env w g p) as [ns w1].
  unfold cws_recheck; destruct_matches; reflexivity.
Qed.

(** A request that [choose], [abandon] or [requestMatch] rejects with a
    4xx status (invalid body, unknown player, missing or finished session,
    not a participant, repeated choice, unknown game) writes nothing: the
    store, rankings and relay calls included, is left as it was. *)
Theorem rejected_requests_write_nothing :
  (forall w sid c ck,
     400 <= http_status (fst (choose w sid c ck)) < 500 ->
     snd (choose w sid c ck) = w) /\
  (forall w sid ck,
     400 <= http_status (fst (abandon w sid ck)) < 500 ->
     snd (abandon w sid ck) = w) /\
  (forall w sl ck,
     400 <= http_status (fst (requestMatch no_env w sl ck)) < 500 ->
     snd (requestMatch no_env w sl ck) = w).
Proof.
  split; [|split].
  - intros w sid c ck; unfold choose, choose_env, no_env; cbv beta zeta.
    destruct_matches; simpl; intros H; try reflexivity; try lia;
      match goal with
      | H : context [resolve_round ?a ?b ?c ?d ?e ?f ?g ?h] |- _ =>
          destruct (resolve_round_status a b c d e f g h); lia
      end.
  - intros w sid ck; unfold abandon; destruct_matches; simpl; intros H;
      try reflexivity; lia.
  - intros w sl ck; unfold requestMatch, no_env; cbv beta zeta.
    destruct_matches; simpl; intros H; try reflexivity; try lia;
      match goal with
      | H : context [createWaitingSession ?a ?b ?c ?d] |- _ =>
          rewrite createWaitingSession_status in H; lia
      end.
Qed.

(** Witness of [rejected_requests_write_nothing]: an unknown cookie, an
    unknown session and an unknown game. *)
Lemma rejected_requests_write_nothing_witness :
  snd (choose w_partial (Some 1) (Some rock) "nobody") = w_partial /\
  snd (abandon w_partial (Some 99) "alice") = w_partial /\
  snd (requestMatch no_env w_partial "chess" "alice") = w_partial.
Proof.
  destruct rejected_requests_write_nothing as [H1 [H2 H3]].
  split; [apply H1|split; [apply H2|apply H3]]; vm_compute; lia.
Defined.

Definition is_participant (s : GameSession) (pid : uuid) : bool :=
  oeqb (player1_id s) (Some pid) || oeqb (player2_id s) (Some pid).

Lemma find_player_update w pr f ck :
  find_player (snd (update_sessions w pr f)) ck = find_player w ck.
Proof. reflexivity. Qed.

Lemma update_keeps_others w gsid f x :
  In x (game_sessions w) -> id x <> gsid ->
  In x (game_sessions (snd (update_sessions w (fun s => Nat.eqb (id s) gsid) f))).
Proof.
  intros Hx Hne; simpl; apply in_map_iff; exists x; split; [|exact Hx].
  apply Nat.eqb_neq in Hne; rewrite Hne; reflexivity.
Qed.

Lemma abandon_active_spec w gsid ck pl s :
  find_player w ck = Some pl ->
  session_by_id w gsid = Some s ->
  is_participant s (p_id pl) = true ->
  (status s = waiting \/ status s = playing) ->
  let u := touch (clock w) (set_status cancelled s) in
  exists w1,
    abandon w (Some gsid) ck = (mkResp 200 BCancelled, relay_post w1 gsid SessionUpdate (Some u))
    /\ update_sessions w (fun x => Nat.eqb (id x) gsid) (set_status cancelled) = ([u], w1)
    /\ session_by_id w1 gsid = Some u.
Proof.
  intros Hp Hs Hpart Hst u.
  destruct (session_by_id_update w gsid s (set_status cancelled) Hs (fun x => eq_refl))
    as [Hrows Hrow].
  exists (snd (update_sessions w (fun x => Nat.eqb (id x) gsid) (set_status cancelled))).
  split; [|split; [|exact Hrow]].
  - unfold abandon; rewrite Hp, Hs; unfold is_participant in Hpart; rewrite Hpart.
    destruct Hst as [Hst|Hst]; rewrite Hst; cbv [negb orb Status_eqb];
    destruct (update_sessions w (fun x => Nat.eqb (id x) gsid) (set_status cancelled))
      as [rows w1] eqn:E; simpl in Hrows; subst rows; reflexivity.
  - subst u; rewrite <- Hrows; destruct (update_sessions _ _ _); reflexivity.
Qed.

(** [abandon] by a participant of a [waiting] or [playing] session: the
    answer is [{ cancelled: true }]; the row becomes [cancelled] (the rest
    of it as it was); every other session row stays in the store
    unchanged; the rankings are untouched; and exactly one relay call is
    made, a [session_update] carrying the cancelled row. *)
Theorem abandon_active_cancels :
  forall w gsid ck pl s,
  find_player w ck = Some pl ->
  session_by_id w gsid = Some s ->
  is_participant s (p_id pl) = true ->
  (status s = waiting \/ status s = playing) ->
  let u := touch (clock w) (set_status cancelled s) in
  let '(r, w') := abandon w (Some gsid) ck in
  r = mkResp 200 BCancelled /\
  session_by_id w' gsid = Some u /\ status u = cancelled /\
  (forall x, In x (game_sessions w) -> id x <> gsid -> In x (game_sessions w')) /\
  rankings w' = rankings w /\
  relay_log w' = relay_log w ++ [mkPost gsid SessionUpdate (Some u)].
Proof.
  intros w gsid ck pl s Hp Hs Hpart Hst u.
  destruct (abandon_active_spec w gsid ck pl s Hp Hs Hpart Hst) as [w1 [Ha [Hu Hrow]]].
  rewrite Ha.
  unfold update_sessions in Hu; injection Hu as _ <-.
  split; [reflexivity|split; [exact Hrow|split; [reflexivity|split]]].
  - intros x Hx Hne; apply (update_keeps_others w gsid (set_status cancelled) x Hx Hne).
  - split; reflexivity.
Qed.

(** Witness of [abandon_active_cancels]: alice abandons the playing
    session 1 of [w_partial]. *)
Lemma abandon_active_cancels_witness :
  fst (abandon w_partial (Some 1) "alice") = mkResp 200 BCancelled /\
  exists u, session_by_id (snd (abandon w_partial (Some 1) "alice")) 1 = Some u
            /\ status u = cancelled.
Proof.
  pose proof (abandon_active_cancels w_partial 1 "alice" (mkPlayer 7 "alice" "alice" None)
                (mkSession 1 100 (Some 7) (Some 8) None (Some 2) playing
                           (mkChoices (Some rock) None) None 0 3)
                eq_refl eq_refl eq_refl (or_intror eq_refl)) as H.
  destruct H as [Hr [Hs [Hst _]]].
  split; [exact Hr|eexists; split; [exact Hs|exact Hst]].
Defined.

(** The opponent's poll after an abandon: when one participant abandons
    a [waiting] or [playing] session, the other participant's next
    [GET /api/game/session] returns the row with status [cancelled], and
    the client's waiting-session poll, handed that row, goes back to
    matching ([resetToMatching]). *)
Theorem abandon_seen_by_opponent_poll :
  forall w gsid ck pl s ck' pl' (c : Client.CState),
  find_player w ck = Some pl ->
  session_by_id w gsid = Some s ->
  is_participant s (p_id pl) = true ->
  (status s = waiting \/ status s = playing) ->
  find_player w ck' = Some pl' ->
  is_participant s (p_id pl') = true ->
  exists u,
    getSession (snd (abandon w (Some gsid) ck)) (Some gsid) ck'
      = mkResp 200 (BSession (Some u)) /\
    status u = cancelled /\
    Client.on_poll_response c (Some u) = Client.resetToMatching c.
Proof.
  intros w gsid ck pl s ck' pl' c Hp Hs Hpart Hst Hp' Hpart'.
  destruct (abandon_active_spec w gsid ck pl s Hp Hs Hpart Hst) as [w1 [Ha [Hu Hrow]]].
  rewrite Ha; exists (touch (clock w) (set_status cancelled s)).
  split; [|split; reflexivity].
  cbn [snd]; unfold getSession.
  assert (Hf : find_player (relay_post w1 gsid SessionUpdate
                              (Some (touch (clock w) (set_status cancelled s)))) ck'
               = Some pl').
  { unfold update_sessions in Hu; injection Hu as _ <-; exact Hp'. }
  rewrite Hf, session_by_id_posted, Hrow.
  unfold is_participant in Hpart'; simpl; rewrite Hpart'; reflexivity.
Qed.

(** Witness of [abandon_seen_by_opponent_poll]: alice abandons session 1
    of [w_partial]; bob's poll sees it cancelled. *)
Lemma abandon_seen_by_opponent_poll_witness :
  exists u,
    getSession (snd (abandon w_partial (Some 1) "alice")) (Some 1) "bob"
      = mkResp 200 (BSession (Some u)) /\ status u = cancelled.
Proof.
  destruct (abandon_seen_by_opponent_poll w_partial 1 "alice" (mkPlayer 7 "alice" "alice" None)
              (mkSession 1 100 (Some 7) (Some 8) None (Some 2) playing
                         (mkChoices (Some rock) None) None 0 3)
              "bob" (mkPlayer 8 "bob" "bob" None) ClientProps.c_waiting
              eq_refl eq_refl eq_refl (or_intror eq_refl) eq_refl eq_refl)
    as [u [H1 [H2 _]]].
  exists u; split; [exact H1|exact H2].
Defined.

(* ------------------------------------------------------------------ *)
(** ** The second choose handler: a draw leaves the round blocked *)

Lemma legacy_already_chose w gsid u ck pl c' :
  find_player w ck = Some pl ->
  session_by_id w gsid = Some u -> status u = playing ->
  is_participant u (p_id pl) = true ->
  rc_player1 (round_choices u) <> None -> rc_player2 (round_choices u) <> None ->
  choose_legacy w (Some gsid) (Some c') ck
    = (mkResp 400 (BError "Already chose" None), w).
Proof.
  intros Hp Hs Hst Hpart H1 H2.
  unfold choose_legacy; rewrite Hp, (playing_row w gsid u Hs Hst).
  unfold is_participant in Hpart.
  destruct (oeqb (player1_id u) (Some (p_id pl))) eqn:E1; simpl.
  - destruct (rc_player1 (round_choices u)); [reflexivity|congruence].
  - simpl in Hpart; rewrite Hpart; simpl.
    destruct (rc_player2 (round_choices u)); [reflexivity|congruence].
Qed.

(** The second handler of choose/route.ts keeps a drawn round [playing]
    but leaves both choices stored: when a participant completes a
    [playing] session's pair of choices with the opponent's own choice,
    the answer is 200 with the row still [playing] and holding both
    choices, and from then on every submission of either participant, of
    any choice, is refused with 400 "Already chose" and writes nothing. *)
Theorem choose_legacy_draw_blocks :
  forall w gsid c cookie player s,
  find_player w cookie = Some player ->
  session_by_id w gsid = Some s ->
  status s = playing ->
  ((oeqb (player1_id s) (Some (p_id player)) = true
    /\ rc_player1 (round_choices s) = None
    /\ rc_player2 (round_choices s) = Some c)
   \/ (oeqb (player1_id s) (Some (p_id player)) = false
       /\ oeqb (player2_id s) (Some (p_id player)) = true
       /\ rc_player2 (round_choices s) = None
       /\ rc_player1 (round_choices s) = Some c)) ->
  let '(r, w') := choose_legacy w (Some gsid) (Some c) cookie in
  exists u,
    r = mkResp 200 (BSession (Some u)) /\
    session_by_id w' gsid = Some u /\
    status u = playing /\
    round_choices u = mkChoices (Some c) (Some c) /\
    round_result u = Some (mkResult draw c c) /\
    forall c' cookie' player',
      find_player w' cookie' = Some player' ->
      is_participant u (p_id player') = true ->
      choose_legacy w' (Some gsid) (Some c') cookie'
        = (mkResp 400 (BError "Already chose" None), w').
Proof.
  intros w gsid c cookie player s Hp Hs Hst Hcase.
  assert (Hd : determineWinner c c = draw) by (destruct c; reflexivity).
  assert (Hres : forall rc,
    rc = mkChoices (Some c) (Some c) ->
    let f := legacy_resolve_row rc (mkResult draw c c)
               (match current_streak s with Some k => k | None => 0 end) None in
    let '(rows, w1) := update_sessions w (fun x => Nat.eqb (id x) gsid) f in
    exists u, rows = [u] /\ session_by_id w1 gsid = Some u /\
      status u = playing /\ round_choices u = mkChoices (Some c) (Some c) /\
      round_result u = Some (mkResult draw c c) /\
      find_player w1 = find_player w).
  { intros rc -> f.
    destruct (session_by_id_update w gsid s f Hs (fun x => eq_refl)) as [Hrows Hrow].
    destruct (update_sessions w _ f) as [rows w1] eqn:Eu.
    simpl in Hrows, Hrow; subst rows.
    eexists; split; [reflexivity|]; split; [exact Hrow|].
    split; [exact Hst|]; split; [reflexivity|]; split; [reflexivity|].
    unfold update_sessions in Eu; injection Eu as _ <-; reflexivity. }
  unfold choose_legacy; rewrite Hp, (playing_row w gsid s Hs Hst).
  destruct Hcase as [[E1 [Hn1 Hc2]] | [E1 [E2 [Hn2 Hc1]]]].
  - rewrite E1; cbn -[update_sessions]; rewrite Hn1; cbn -[update_sessions]; rewrite Hc2; cbn -[update_sessions]; rewrite Hd.
    specialize (Hres _ eq_refl); cbv zeta in Hres.
    destruct (update_sessions _ _ _) as [rows w1].
    destruct Hres as [u [-> [Hrow [Hstu [Hrc [Hrr Hf]]]]]]; simpl.
    exists u; repeat (split; [assumption || reflexivity|]).
    intros c' ck' pl' Hp' Hpart.
    apply (legacy_already_chose w1 gsid u ck' pl' c' Hp' Hrow Hstu Hpart);
      rewrite Hrc; discriminate.
  - rewrite E1, E2; cbn -[update_sessions]; rewrite Hn2; cbn -[update_sessions]; rewrite Hc1; cbn -[update_sessions]; rewrite Hd.
    specialize (Hres _ eq_refl); cbv zeta in Hres.
    destruct (update_sessions _ _ _) as [rows w1].
    destruct Hres as [u [-> [Hrow [Hstu [Hrc [Hrr Hf]]]]]]; simpl.
    exists u; repeat (split; [assumption || reflexivity|]).
    intros c' ck' pl' Hp' Hpart.
    apply (legacy_already_chose w1 gsid u ck' pl' c' Hp' Hrow Hstu Hpart);
      rewrite Hrc; discriminate.
Qed.

(** Witness of [choose_legacy_draw_blocks]: in [w_partial] alice chose
    rock; bob answers rock, and alice's next submission is refused. *)
Lemma choose_legacy_draw_blocks_witness :
  exists u,
    fst (choose_legacy w_partial (Some 1) (Some rock) "bob")
      = mkResp 200 (BSession (Some u)) /\ status u = playing /\
    choose_legacy (snd (choose_legacy w_partial (Some 1) (Some rock) "bob"))
                  (Some 1) (Some paper) "alice"
      = (mkResp 400 (BError "Already chose" None),
         snd (choose_legacy w_partial (Some 1) (Some rock) "bob")).
Proof.
  generalize (choose_legacy_draw_blocks w_partial 1 rock "bob"
                (mkPlayer 8 "bob" "bob" None)
                (mkSession 1 100 (Some 7) (Some 8) None (Some 2) playing
                           (mkChoices (Some rock) None) None 0 3)
                eq_refl eq_refl eq_refl
                (or_intror (conj eq_refl (conj eq_refl (conj eq_refl eq_refl))))).
  intros H; hnf in H; destruct H as [u [Hr [_ [Hst [_ [_ Hblock]]]]]].
  exists u; split; [exact Hr|]; split; [exact Hst|].
  apply (Hblock paper "alice"%string (mkPlayer 7 "alice" "alice" None)).
  - vm_compute; reflexivity.
  - injection Hr as <-; vm_compute; reflexivity.
Defined.

(* ------------------------------------------------------------------ *)
(** ** The first choice of a round is readable by the opponent *)

(** The first choice of a round is stored in the row as it is, so the
    opponent sees it before choosing: when a participant submits the
    first choice of a [playing] session, the answer is 200 with the row
    still [playing] and the caller's slot holding the choice, the row is
    posted to the room as a [session_update], and the other
    participant's [GET /api/game/session] returns that same row. *)
Theorem first_choice_visible_to_opponent :
  forall w gsid c ck pl s ck' pl',
  find_player w ck = Some pl ->
  session_by_id w gsid = Some s ->
  status s = playing ->
  is_participant s (p_id pl) = true ->
  round_choices s = mkChoices None None ->
  find_player w ck' = Some pl' ->
  is_participant s (p_id pl') = true ->
  let '(r, w') := choose w (Some gsid) (Some c) ck in
  exists u,
    r = mkResp 200 (BSession (Some u)) /\
    status u = playing /\
    caller_slot u (p_id pl) = Some c /\
    relay_log w' = relay_log w ++ [mkPost gsid SessionUpdate (Some u)] /\
    getSession w' (Some gsid) ck' = mkResp 200 (BSession (Some u)).
Proof.
  intros w gsid c ck pl s ck' pl' Hp Hs Hst Hpart Hrc Hp' Hpart'.
  assert (Hw : forall rc,
    let '(rows, w1) := update_sessions w (fun x => Nat.eqb (id x) gsid)
                         (set_round_choices rc) in
    let u := touch (clock w) (set_round_choices rc s) in
    rows = [u] /\
    relay_log (relay_post w1 gsid SessionUpdate (Some u))
      = relay_log w ++ [mkPost gsid SessionUpdate (Some u)] /\
    getSession (relay_post w1 gsid SessionUpdate (Some u)) (Some gsid) ck'
      = mkResp 200 (BSession (Some u))).
  { intros rc.
    destruct (session_by_id_update w gsid s (set_round_choices rc) Hs (fun x => eq_refl))
      as [Hrows Hrow].
    destruct (update_sessions w _ _) as [rows w1] eqn:Eu.
    simpl in Hrows, Hrow; subst rows; cbv zeta.
    split; [reflexivity|].
    unfold update_sessions in Eu; injection Eu as _ <-.
    split; [reflexivity|].
    unfold getSession; rewrite session_by_id_posted, Hrow.
    change (find_player (relay_post (set_sessions w
              (map (fun x => if Nat.eqb (id x) gsid
                             then touch (clock w) (set_round_choices rc x) else x)
                   (game_sessions w))) gsid SessionUpdate
              (Some (touch (clock w) (set_round_choices rc s)))) ck')
      with (find_player w ck').
    rewrite Hp'; unfold is_participant in Hpart'; simpl; rewrite Hpart'; reflexivity. }
  unfold choose, choose_env, no_env; cbv beta; rewrite Hp, (playing_row w gsid s Hs Hst).
  unfold is_participant in Hpart.
  destruct (oeqb (player1_id s) (Some (p_id pl))) eqn:E1.
  - cbn -[update_sessions]; rewrite Hrc; cbn -[update_sessions].
    specialize (Hw (mkChoices (Some c) None)).
    destruct (update_sessions _ _ _) as [rows w1].
    destruct Hw as [-> [Hlog Hget]]; cbn -[relay_post getSession].
    eexists; split; [reflexivity|]; split; [exact Hst|].
    split; [unfold caller_slot; simpl; rewrite E1; reflexivity|].
    split; [exact Hlog|exact Hget].
  - simpl in Hpart; rewrite Hpart.
    cbn -[update_sessions]; rewrite Hrc; cbn -[update_sessions].
    specialize (Hw (mkChoices None (Some c))).
    destruct (update_sessions _ _ _) as [rows w1].
    destruct Hw as [-> [Hlog Hget]]; cbn -[relay_post getSession].
    eexists; split; [reflexivity|]; split; [exact Hst|].
    split; [unfold caller_slot; simpl; rewrite E1; reflexivity|].
    split; [exact Hlog|exact Hget].
Qed.

Definition w_new_round : World :=
  mkWorld [mkPlayer 7 "alice" "alice" None; mkPlayer 8 "bob" "bob" None]
          [mkGame 100 "rps" true None]
          [mkSession 1 100 (Some 7) (Some 8) None (Some 2) playing
                     (mkChoices None None) None 0 3]
          [] [] None 10 50.

(** Witness of [first_choice_visible_to_opponent]: alice opens the round
    of [w_new_round] with paper, and bob's read shows it. *)
Lemma first_choice_visible_to_opponent_witness :
  exists u,
    fst (choose w_new_round (Some 1) (Some paper) "alice")
      = mkResp 200 (BSession (Some u)) /\
    caller_slot u 7 = Some paper /\
    getSession (snd (choose w_new_round (Some 1) (Some paper) "alice")) (Some 1) "bob"
      = mkResp 200 (BSession (Some u)).
Proof.
  generalize (first_choice_visible_to_opponent w_new_round 1 paper "alice"
                (mkPlayer 7 "alice" "alice" None)
                (mkSession 1 100 (Some 7) (Some 8) None (Some 2) playing
                           (mkChoices None None) None 0 3)
                "bob" (mkPlayer 8 "bob" "bob" None)
                eq_refl eq_refl eq_refl eq_refl eq_refl eq_refl eq_refl).
  intros H; hnf in H; destruct H as [u [Hr [_ [Hslot [_ Hget]]]]].
  exists u; split; [exact Hr|]; split; [exact Hslot|exact Hget].
Defined.

(* ------------------------------------------------------------------ *)
(** ** The champion summary is the game's best ranking *)

Lemma max_by_max {A} (k : A -> nat) (l : list A) x :
  max_by k l = Some x -> forall y, In y l -> k y <= k x.
Proof.
  revert x; induction l as [|a t IH]; simpl; intros x; [discriminate|].
  destruct (max_by k t) as [z|] eqn:E.
  - specialize (IH z eq_refl).
    destruct (k a <? k z) eqn:Ek; intros H; injection H as <-; intros y [<-|Hy].
    + apply Nat.ltb_lt in Ek; lia.
    + apply IH, Hy.
    + lia.
    + apply Nat.ltb_ge in Ek; specialize (IH y Hy); lia.
  - intros H; injection H as <-; intros y [<-|Hy]; [lia|].
    destruct t; simpl in *; [contradiction|].
    destruct (max_by k t); [destruct (k a0 <? k a1)|]; discriminate.
Qed.

Lemma max_by_none {A} (k : A -> nat) (l : list A) :
  max_by k l = None -> l = [].
Proof.
  destruct l as [|a t]; simpl; [reflexivity|].
  destruct (max_by k t); [destruct (k a <? k a0)|]; discriminate.
Qed.

Lemma rank_key_game g pid r : rank_key g pid r = true -> r_game_id r = g.
Proof.
  unfold rank_key; intros H; apply andb_prop in H; destruct H as [H _].
  apply Nat.eqb_eq, H.
Qed.

(** After the upsert of [record_ranking] the game has a ranking row. *)
Lemma upsert_has_row w g pid wp k :
  exists r, In r (rankings
    (match single (filter (rank_key g pid) (rankings w)) with
     | Some er => if streak_count er <? k then update_ranking w (rank_id er) wp k
                  else w
     | None => insert_ranking w g pid wp k
     end)) /\ r_game_id r = g.
Proof.
  destruct (single (filter (rank_key g pid) (rankings w))) as [er|] eqn:Es.
  - apply single_some in Es.
    assert (Hin : In er (filter (rank_key g pid) (rankings w))) by (rewrite Es; left; reflexivity).
    apply filter_In in Hin; destruct Hin as [Hin Hk].
    destruct (streak_count er <? k).
    + eexists; split.
      * unfold update_ranking, set_rankings; simpl.
        apply in_map_iff; exists er; split; [reflexivity|exact Hin].
      * destruct (Nat.eqb (rank_id er) (rank_id er)); simpl; apply (rank_key_game g pid er Hk).
    + exists er; split; [exact Hin|apply (rank_key_game g pid er Hk)].
  - unfold insert_ranking.
    destruct (existsb (rank_key g pid) (rankings w)) eqn:Ee.
    + apply existsb_exists in Ee; destruct Ee as [r [Hin Hk]].
      exists r; split; [exact Hin|apply (rank_key_game g pid r Hk)].
    + eexists; split; [simpl; apply in_or_app; right; left; reflexivity|reflexivity].
Qed.

(** [record_ranking] (choose/route.ts, the ranking write and the champion
    summary) leaves every row of the game holding a champion that is one
    of the game's ranking rows, of the greatest [streak_count] among
    them, and leaves the other games' rows as they were. *)
Theorem record_ranking_champion_is_best :
  forall w session pid b k wp,
  find_player_by_id w pid = Some wp ->
  let g := game_id session in
  let w' := record_ranking w session pid b k in
  (forall x, In x (games w') -> g_id x = g ->
   exists c t,
     current_champion x = Some c /\
     In t (rankings w') /\ r_game_id t = g /\
     ch_player_name c = player_name t /\ ch_streak c = streak_count t /\
     forall r, In r (rankings w') -> r_game_id r = g -> streak_count r <= ch_streak c)
  /\ (forall x, In x (games w) -> g_id x <> g -> In x (games w')).
Proof.
  intros w session pid b k wp Hwp g w'.
  unfold w', record_ranking; cbv zeta; fold g; rewrite Hwp.
  match goal with
  | |- context [filter (rank_key g pid) (rankings w)] =>
      match goal with
      | |- context [match single (filter (rank_key g pid) (rankings w)) with
                    | Some er => if streak_count er <? ?K then _ else _
                    | None => _ end] =>
          destruct (upsert_has_row w g pid wp K) as [r0 [Hr0 Hg0]];
          remember (match single (filter (rank_key g pid) (rankings w)) with
                    | Some er => if streak_count er <? K
                                 then update_ranking w (rank_id er) wp K else w
                    | None => insert_ranking w g pid wp K end) as w1 eqn:Ew1
      end
  end.
  assert (Hgames : games w1 = games w).
  { subst w1; destruct (single _) as [er|];
      [destruct (_ <? _); reflexivity|unfold insert_ranking; destruct (existsb _ _); reflexivity]. }
  destruct (max_by streak_count (filter (fun r => Nat.eqb (r_game_id r) g) (rankings w1)))
    as [t|] eqn:Em.
  - pose proof (max_by_in _ _ _ Em) as Ht; apply filter_In in Ht; destruct Ht as [Ht Htg].
    apply Nat.eqb_eq in Htg.
    split.
    + intros x Hx Hxg; unfold set_champion, set_games in Hx; simpl in Hx.
      apply in_map_iff in Hx; destruct Hx as [y [Hy _]].
      subst x; destruct (Nat.eqb (g_id y) g) eqn:Ey;
        [|simpl in Hxg; apply Nat.eqb_neq in Ey; contradiction].
      eexists; exists t; split; [reflexivity|]; simpl.
      split; [exact Ht|]; split; [exact Htg|]; split; [reflexivity|]; split; [reflexivity|].
      intros r Hr Hrg; apply (max_by_max _ _ _ Em); apply filter_In; split;
        [exact Hr|apply Nat.eqb_eq, Hrg].
    + intros x Hx Hxg; unfold set_champion, set_games; simpl.
      apply in_map_iff; exists x; split; [|rewrite Hgames; exact Hx].
      apply Nat.eqb_neq in Hxg; rewrite Hxg; reflexivity.
  - exfalso; apply max_by_none in Em.
    assert (Hin : In r0 (filter (fun r => Nat.eqb (r_game_id r) g) (rankings w1)))
      by (apply filter_In; split; [exact Hr0|apply Nat.eqb_eq, Hg0]).
    rewrite Em in Hin; contradiction.
Qed.

(** Witness of [record_ranking_champion_is_best]: alice's win with streak
    3 in [w_partial] makes her the champion of game 100. *)
Lemma record_ranking_champion_is_best_witness :
  exists c,
    current_champion
      (hd (mkGame 0 "" false None)
          (games (record_ranking w_partial
                    (mkSession 1 100 (Some 7) (Some 8) None (Some 2) playing
                               (mkChoices (Some rock) None) None 0 3) 7 false 3)))
      = Some c.
Proof.
  destruct (record_ranking_champion_is_best w_partial
              (mkSession 1 100 (Some 7) (Some 8) None (Some 2) playing
                         (mkChoices (Some rock) None) None 0 3) 7 false 3
              (mkPlayer 7 "alice" "alice" None) eq_refl) as [H _].
  destruct (H (hd (mkGame 0 "" false None)
                  (games (record_ranking w_partial
                            (mkSession 1 100 (Some 7) (Some 8) None (Some 2) playing
                                       (mkChoices (Some rock) None) None 0 3) 7 false 3))))
    as [c [t [Hc _]]].
  - vm_compute; left; reflexivity.
  - vm_compute; reflexivity.
  - exists c; exact Hc.
Defined.

(* ------------------------------------------------------------------ *)
(** ** The earlier room server and the end of a game *)

Module RelayV0Props.
Import Relay PartyKit RelayV0.

(** The room server of part_000 does not know [session_end]: the post
    [broadcastSessionEnd] sends is answered 400, the room is left as it
    was and nothing is sent; and that server never closes a connection,
    whatever the events. *)
Theorem relay_v0_end_not_relayed :
  (forall host secret sid sess url r cs,
     broadcastSessionEnd host secret sid sess = Some (url, r) ->
     onRequest0 secret cs r = (400, cs, [])) /\
  (forall secret cs es,
     forallb (fun o => negb (is_close o)) (snd (room_run0 secret cs es)) = true).
Proof.
  split.
  - intros host secret sid sess url r cs H.
    unfold broadcastSessionEnd, postToPartyKit in H.
    destruct (String.eqb (getPartykitBaseUrl host) "") eqn:Eb; [discriminate|].
    injection H as _ Hr.
    assert (Hv : verifySecret secret r = true).
    { rewrite <- Hr; unfold verifySecret; simpl.
      destruct (String.eqb secret "") eqn:Es; [reflexivity|].
      apply String.eqb_refl. }
    assert (Hm : req_method r = "POST"%string) by (rewrite <- Hr; reflexivity).
    assert (Hb : req_body r = Some (JStr "session_end", sess)) by (rewrite <- Hr; reflexivity).
    unfold onRequest0; rewrite Hv, Hm, Hb; reflexivity.
  - intros secret cs es; revert cs; induction es as [|e t IH]; intros cs; [reflexivity|].
    simpl.
    assert (Hs : forall cs, forallb (fun o => negb (is_close o))
                              (snd (room_step0 secret cs e)) = true).
    { intros cs0; destruct e as [r|c|c f|c]; simpl.
      - unfold onRequest0.
        destruct (negb (String.eqb (req_method r) "POST")); [reflexivity|].
        destruct (negb (verifySecret secret r)); [reflexivity|].
        destruct (req_body r) as [[ty sess]|]; [|reflexivity].
        destruct (_ && _); [|reflexivity]; simpl.
        unfold broadcast0; induction (filter _ cs0); simpl; auto.
      - reflexivity.
      - unfold onMessage0; destruct f as [[ty [pid| |]]|]; try reflexivity.
        destruct (is_jstr ty "join"); reflexivity.
      - unfold onClose0; destruct (find _ cs0) as [x|]; [|reflexivity].
        destruct (conn_playerId x) as [pid|]; [|reflexivity].
        destruct (String.eqb pid ""); [reflexivity|]; simpl.
        unfold broadcast0; induction (filter _ cs0); simpl; auto. }
    specialize (Hs cs).
    destruct (room_step0 secret cs e) as [cs1 o1]; simpl in Hs.
    specialize (IH cs1); destruct (room_run0 secret cs1 t) as [cs2 o2]; simpl in IH |- *.
    rewrite forallb_app, Hs, IH; reflexivity.
Qed.

(** Witness of [relay_v0_end_not_relayed]: the end post for session 1,
    with the secret "k", to a room where alice is connected. *)
Lemma relay_v0_end_not_relayed_witness :
  exists url r,
    broadcastSessionEnd (Some "relay.example"%string) "k"%string "1"%string JOther
      = Some (url, r) /\
    onRequest0 "k"%string [mkConn 1 (Some "alice"%string)] r
      = (400, [mkConn 1 (Some "alice"%string)], []).
Proof.
  eexists; eexists; split; [reflexivity|].
  apply (proj1 relay_v0_end_not_relayed (Some "relay.example"%string) "k"%string
           "1"%string JOther
           ("https://relay.example/parties/game/1")%string
           (mkReq "POST" (Some "Bearer k"%string) (Some (JStr "session_end", JOther)))
           [mkConn 1 (Some "alice"%string)]).
  reflexivity.
Defined.

End RelayV0Props.

(* ------------------------------------------------------------------ *)
(** ** [slugify] always yields a slug *)

Module SlugProps.
Import Slug.

Lemma slug_char_not_ws a : is_slug_char a = true -> is_ws a = false.
Proof. destruct a as [[] [] [] [] [] [] [] []]; cbv; intros H; congruence. Qed.

Lemma slug_char_lower a : is_slug_char a = true -> lower a = a.
Proof. destruct a as [[] [] [] [] [] [] [] []]; cbv; intros H; congruence. Qed.

Lemma dash_slug_char a : is_dash a = true -> is_slug_char a = true.
Proof. unfold is_slug_char; intros ->; rewrite !orb_true_r; reflexivity. Qed.

Lemma keep_all s : all_slug_chars (keep_slug_chars s) = true.
Proof.
  induction s as [|a t IH]; simpl; [reflexivity|].
  destruct (is_slug_char a) eqn:E; simpl; [rewrite E|]; auto.
Qed.

Lemma dash_runs_all b s : all_slug_chars s = true -> all_slug_chars (dash_runs b s) = true.
Proof.
  revert b; induction s as [|a t IH]; intros b; simpl; [reflexivity|].
  intros H; apply andb_prop in H; destruct H as [Ha Ht].
  destruct (is_dash a); [destruct b|]; simpl; rewrite ?Ha; simpl; auto.
Qed.

Lemma dash_runs_shape b s :
  no_double_dash (dash_runs b s) = true /\
  (b = true -> starts_dash (dash_runs b s) = false).
Proof.
  revert b; induction s as [|a t IH]; intros b; simpl; [split; reflexivity|].
  destruct (is_dash a) eqn:Ea.
  - destruct b.
    + apply IH.
    + simpl; destruct (IH true) as [H1 H2]; rewrite Ea, (H2 eq_refl), H1.
      split; [reflexivity|discriminate].
  - simpl; destruct (IH false) as [H1 _]; rewrite Ea, H1; split; [reflexivity|].
    intros _; reflexivity.
Qed.

Lemma strip_leading_shape s :
  all_slug_chars s = true -> no_double_dash s = true ->
  all_slug_chars (strip_leading_dash s) = true /\
  no_double_dash (strip_leading_dash s) = true /\
  starts_dash (strip_leading_dash s) = false.
Proof.
  destruct s as [|a t]; simpl; [intros; repeat split|].
  intros Ha Hn; apply andb_prop in Ha; destruct Ha as [Ha Ht].
  apply andb_prop in Hn; destruct Hn as [Hd Hn].
  destruct (is_dash a) eqn:Ea; simpl.
  - simpl in Hd; destruct (starts_dash t); [discriminate|]; auto.
  - rewrite Ha, Ea, Ht, Hn; auto.
Qed.

Lemma strip_trailing_all s : all_slug_chars s = true ->
  all_slug_chars (strip_trailing_dash s) = true.
Proof.
  induction s as [|a t IH]; simpl; [reflexivity|].
  intros H; apply andb_prop in H; destruct H as [Ha Ht].
  destruct (is_dash a && String.eqb t ""); simpl; [reflexivity|].
  rewrite Ha; auto.
Qed.

Lemma strip_trailing_starts s : starts_dash s = false ->
  starts_dash (strip_trailing_dash s) = false.
Proof.
  destruct s as [|a t]; simpl; [reflexivity|]; intros Ea; rewrite Ea; simpl; exact Ea.
Qed.

Lemma strip_trailing_nodouble s : no_double_dash s = true ->
  no_double_dash (strip_trailing_dash s) = true /\
  (starts_dash (strip_trailing_dash s) = true -> starts_dash s = true).
Proof.
  induction s as [|a t IH]; simpl; [split; auto|].
  intros H; apply andb_prop in H; destruct H as [Hd Hn].
  destruct (is_dash a) eqn:Ea; destruct (String.eqb t "") eqn:Et; simpl;
    try (split; [reflexivity|discriminate]).
  - destruct (IH Hn) as [H1 H2]; rewrite H1, Ea; simpl.
    destruct (starts_dash (strip_trailing_dash t)) eqn:Es.
    + rewrite (H2 eq_refl) in Hd; discriminate.
    + split; reflexivity.
  - destruct (IH Hn) as [H1 _]; rewrite H1, Ea; simpl; split; [reflexivity|discriminate].
  - destruct (IH Hn) as [H1 _]; rewrite H1, Ea; simpl; split; [reflexivity|discriminate].
Qed.

Lemma ends_dash_cons a r :
  ends_dash (String a r) = if String.eqb r "" then is_dash a else ends_dash r.
Proof. reflexivity. Qed.

Lemma strip_trailing_empty t :
  String.eqb t "" = false -> String.eqb (strip_trailing_dash t) "" = true ->
  starts_dash t = true.
Proof.
  destruct t as [|b u]; simpl; [discriminate|]; intros _.
  destruct (is_dash b) eqn:Eb; [reflexivity|]; simpl; discriminate.
Qed.

Lemma strip_trailing_ends s : no_double_dash s = true ->
  ends_dash (strip_trailing_dash s) = false.
Proof.
  induction s as [|a t IH]; [reflexivity|].
  intros H; simpl in H; apply andb_prop in H; destruct H as [Hd Hn].
  destruct (String.eqb t "") eqn:Et.
  - apply String.eqb_eq in Et; subst t; simpl.
    destruct (is_dash a) eqn:Ea; simpl; [reflexivity|exact Ea].
  - assert (Hs : strip_trailing_dash (String a t) = String a (strip_trailing_dash t))
      by (simpl; rewrite Et, andb_false_r; reflexivity).
    rewrite Hs, ends_dash_cons.
    destruct (String.eqb (strip_trailing_dash t) "") eqn:E2.
    + rewrite (strip_trailing_empty t Et E2) in Hd.
      destruct (is_dash a); [discriminate|reflexivity].
    + apply (IH Hn).
Qed.

(** The string [slugify] ends with is a slug, or empty. *)
Lemma slug_steps_shape x :
  let s := strip_trailing_dash (strip_leading_dash (dash_runs false (keep_slug_chars x))) in
  all_slug_chars s = true /\ no_double_dash s = true /\
  starts_dash s = false /\ ends_dash s = false.
Proof.
  cbv zeta.
  destruct (dash_runs_shape false (keep_slug_chars x)) as [Hn _].
  destruct (strip_leading_shape _ (dash_runs_all false _ (keep_all x)) Hn)
    as [H1 [H2 H3]].
  destruct (strip_trailing_nodouble _ H2) as [N1 N2].
  split; [apply strip_trailing_all, H1|]; split; [exact N1|]; split.
  - apply strip_trailing_starts, H3.
  - apply strip_trailing_ends, H2.
Qed.

Lemma slugify_valid title : valid_slug (slugify title) = true.
Proof.
  unfold slugify.
  destruct (slug_steps_shape (ws_runs false (trim (toLowerCase title))))
    as [H1 [H2 [H3 H4]]].
  destruct (String.eqb _ "") eqn:E; [reflexivity|].
  unfold valid_slug; rewrite E, H1, H2, H3, H4; reflexivity.
Qed.

Lemma all_slug_lower s : all_slug_chars s = true -> toLowerCase s = s.
Proof.
  induction s as [|a t IH]; simpl; [reflexivity|].
  intros H; apply andb_prop in H; destruct H as [Ha Ht].
  rewrite (slug_char_lower a Ha), (IH Ht); reflexivity.
Qed.

Lemma all_slug_trim s : all_slug_chars s = true -> trim s = s.
Proof.
  intros H; unfold trim.
  assert (Hs : trimStart s = s).
  { destruct s as [|a t]; simpl; [reflexivity|].
    simpl in H; apply andb_prop in H; destruct H as [Ha _].
    rewrite (slug_char_not_ws a Ha); reflexivity. }
  rewrite Hs; clear Hs.
  induction s as [|a t IH]; simpl; [reflexivity|].
  simpl in H; apply andb_prop in H; destruct H as [Ha Ht].
  rewrite (slug_char_not_ws a Ha), (IH Ht); reflexivity.
Qed.

Lemma all_slug_ws_runs b s : all_slug_chars s = true -> ws_runs b s = s.
Proof.
  revert b; induction s as [|a t IH]; intros b; simpl; [reflexivity|].
  intros H; apply andb_prop in H; destruct H as [Ha Ht].
  rewrite (slug_char_not_ws a Ha), (IH false Ht); reflexivity.
Qed.

Lemma all_slug_keep s : all_slug_chars s = true -> keep_slug_chars s = s.
Proof.
  induction s as [|a t IH]; simpl; [reflexivity|].
  intros H; apply andb_prop in H; destruct H as [Ha Ht].
  rewrite Ha, (IH Ht); reflexivity.
Qed.

Lemma nodouble_dash_runs b s :
  no_double_dash s = true -> (b = true -> starts_dash s = false) ->
  dash_runs b s = s.
Proof.
  revert b; induction s as [|a t IH]; intros b; simpl; [reflexivity|].
  intros H Hb; apply andb_prop in H; destruct H as [Hd Hn].
  destruct (is_dash a) eqn:Ea.
  - destruct b; [specialize (Hb eq_refl); discriminate|].
    simpl in Hd; rewrite (IH true Hn); [reflexivity|].
    intros _; destruct (starts_dash t); [discriminate|reflexivity].
  - rewrite (IH false Hn); [reflexivity|discriminate].
Qed.

Lemma ends_strip_trailing s : ends_dash s = false -> strip_trailing_dash s = s.
Proof.
  induction s as [|a t IH]; simpl; [reflexivity|].
  destruct (String.eqb t "") eqn:Et.
  - intros Ea; rewrite Ea; simpl.
    apply String.eqb_eq in Et; subst t; reflexivity.
  - intros He; rewrite andb_false_r, (IH He); reflexivity.
Qed.

Lemma valid_slugify_fixed s : valid_slug s = true -> slugify s = s.
Proof.
  unfold valid_slug; intros H.
  apply andb_prop in H; destruct H as [H He].
  apply andb_prop in H; destruct H as [H Hs].
  apply andb_prop in H; destruct H as [H Hn].
  apply andb_prop in H; destruct H as [Hne Ha].
  apply negb_true_iff in He, Hs, Hne.
  unfold slugify.
  rewrite (all_slug_lower s Ha), (all_slug_trim s Ha), (all_slug_ws_runs false s Ha),
          (all_slug_keep s Ha), (nodouble_dash_runs false s Hn) by discriminate.
  assert (Hl : strip_leading_dash s = s)
    by (destruct s as [|a t]; simpl in *; [reflexivity|rewrite Hs; reflexivity]).
  rewrite Hl, (ends_strip_trailing s He), Hne; reflexivity.
Qed.

(** [slugify] turns every title into a slug (non-empty, of [a-z0-9-],
    with no dash at either end and no two dashes in a row), and applying
    it to its own result changes nothing. *)
Theorem slugify_yields_slug :
  forall title,
  valid_slug (slugify title) = true /\ slugify (slugify title) = slugify title.
Proof.
  intros title; split; [apply slugify_valid|].
  apply valid_slugify_fixed, slugify_valid.
Qed.

(** The strings [slugify] leaves unchanged are exactly the slugs. *)
Theorem slugify_fixed_points :
  forall s, slugify s = s <-> valid_slug s = true.
Proof.
  intros s; split.
  - intros H; rewrite <- H; apply slugify_valid.
  - apply valid_slugify_fixed.
Qed.

End SlugProps.

(* ------------------------------------------------------------------ *)
(** ** A nickname post registers the browser's player *)

Module PlayerProps.
Import PlayerRoute.

Lemma nodup_snoc_any {A} (l : list A) a : NoDup l -> ~ In a l -> NoDup (l ++ [a]).
Proof.
  induction l as [|x t IH]; simpl; intros Hn Ha.
  - constructor; [intros []|constructor].
  - apply NoDup_cons_iff in Hn; destruct Hn as [Hx Hn].
    constructor.
    + rewrite in_app_iff; simpl; intros [H|[H|[]]]; [contradiction|apply Ha; left; symmetry; exact H].
    + apply IH; tauto.
Qed.

Lemma filter_sid_unique (l : list Player) sid x :
  NoDup (map session_id l) -> In x l -> session_id x = sid ->
  filter (fun p => String.eqb (session_id p) sid) l = [x].
Proof.
  induction l as [|a t IH]; simpl; [contradiction|].
  intros Hn Hx Hs; apply NoDup_cons_iff in Hn; destruct Hn as [Ha Hn].
  destruct Hx as [<-|Hx].
  - rewrite Hs, String.eqb_refl; f_equal.
    destruct (filter (fun p => String.eqb (session_id p) sid) t) as [|b u] eqn:E;
      [reflexivity|exfalso].
    assert (Hb : In b (filter (fun p => String.eqb (session_id p) sid) t))
      by (rewrite E; left; reflexivity).
    apply filter_In in Hb; destruct Hb as [Hb Hbs]; apply String.eqb_eq in Hbs.
    apply Ha; rewrite Hs, <- Hbs; apply in_map, Hb.
  - destruct (String.eqb (session_id a) sid) eqn:E.
    + exfalso; apply String.eqb_eq in E; apply Ha; rewrite E, <- Hs; apply in_map, Hx.
    + apply IH; assumption.
Qed.

Lemma filter_sid_other_map (l : list Player) sid ck nick :
  ck <> sid ->
  filter (fun p => String.eqb (session_id p) ck)
    (map (fun q => if String.eqb (session_id q) sid
                   then mkPlayer (p_id q) (session_id q) nick (country_flag q)
                   else q) l)
  = filter (fun p => String.eqb (session_id p) ck) l.
Proof.
  intros Hne; induction l as [|a t IH]; simpl; [reflexivity|].
  destruct (String.eqb (session_id a) sid) eqn:E; simpl; rewrite IH; [|reflexivity].
  apply String.eqb_eq in E; rewrite E.
  destruct (String.eqb sid ck) eqn:E2; [apply String.eqb_eq in E2; congruence|reflexivity].
Qed.

Lemma filter_sid_none (l : list Player) sid :
  find (fun p => String.eqb (session_id p) sid) l = None ->
  filter (fun p => String.eqb (session_id p) sid) l = [].
Proof.
  induction l as [|a t IH]; simpl; [reflexivity|].
  destruct (String.eqb (session_id a) sid); [discriminate|exact IH].
Qed.

Lemma filter_snoc {A} (f : A -> bool) (l : list A) a :
  filter f (l ++ [a]) = filter f l ++ (if f a then [a] else []).
Proof.
  induction l as [|x t IH]; simpl; [destruct (f a); reflexivity|].
  destruct (f x); simpl; rewrite IH; reflexivity.
Qed.

Lemma upsert_player_spec w sid nick :
  NoDup (map session_id (players w)) ->
  let '(p, w') := upsert_player w sid nick in
  session_id p = sid /\ nickname p = nick /\
  find_player w' sid = Some p /\
  NoDup (map session_id (players w')) /\
  (forall q, find_player w sid = Some q -> p_id p = p_id q) /\
  (forall ck, ck <> sid -> find_player w' ck = find_player w ck).
Proof.
  intros Hn; unfold upsert_player.
  destruct (find (fun p => String.eqb (session_id p) sid) (players w)) as [p0|] eqn:Ef.
  - apply find_some in Ef; destruct Ef as [Hin Hs]; apply String.eqb_eq in Hs.
    assert (Hmap : map session_id
                     (map (fun q => if String.eqb (session_id q) sid
                                    then mkPlayer (p_id q) (session_id q) nick (country_flag q)
                                    else q) (players w))
                   = map session_id (players w)).
    { rewrite map_map; apply map_ext; intros q; destruct (String.eqb _ _); reflexivity. }
    split; [reflexivity|]; split; [reflexivity|]; split; [|split; [|split]].
    + unfold find_player; simpl.
      rewrite (filter_sid_unique _ sid (mkPlayer (p_id p0) sid nick (country_flag p0))).
      * reflexivity.
      * simpl; rewrite Hmap; exact Hn.
      * apply in_map_iff; exists p0; split; [rewrite Hs, String.eqb_refl; reflexivity|exact Hin].
      * reflexivity.
    + simpl; rewrite Hmap; exact Hn.
    + unfold find_player; rewrite (filter_sid_unique _ sid p0 Hn Hin Hs); simpl.
      intros q Hq; injection Hq as <-; reflexivity.
    + intros ck Hck; unfold find_player; simpl; rewrite filter_sid_other_map by exact Hck.
      reflexivity.
  - pose proof (filter_sid_none _ _ Ef) as Hf.
    split; [reflexivity|]; split; [reflexivity|]; split; [|split; [|split]].
    + unfold find_player; simpl; rewrite filter_snoc, Hf; simpl.
      rewrite String.eqb_refl; reflexivity.
    + simpl; rewrite map_app; apply nodup_snoc_any; [exact Hn|].
      intros Hin; apply in_map_iff in Hin; destruct Hin as [q [Hq Hin]].
      assert (Hq' : In q (filter (fun p => String.eqb (session_id p) sid) (players w)))
        by (apply filter_In; split; [exact Hin|apply String.eqb_eq, Hq]).
      rewrite Hf in Hq'; contradiction.
    + unfold find_player; rewrite Hf; discriminate.
    + intros ck Hck; unfold find_player; simpl; rewrite filter_snoc; simpl.
      destruct (String.eqb sid ck) eqn:E; [apply String.eqb_eq in E; congruence|].
      rewrite app_nil_r; reflexivity.
Qed.

(** A valid nickname post (2 to 20 characters once trimmed) from a
    browser answers 200 with the player row, whose nickname is the
    trimmed one; from then on [GET /api/player] and every route that
    looks the player up by the browser's cookie find that row; a player
    the cookie already had keeps its id; the session ids of the players
    stay distinct; and the players of other cookies are not touched. *)
Theorem postPlayer_registers :
  forall w nick jar fresh fresh',
  fresh <> ""%string ->
  NoDup (map session_id (players w)) ->
  2 <= js_length (js_trim nick) <= 20 ->
  let '(sid, jar') := Cookie.getSessionId jar fresh in
  let '(r, w') := postPlayer w (Some nick) sid in
  exists p,
    r = (200, PBPlayer (Some p)) /\
    nickname p = js_trim nick /\
    getPlayer w' (fst (Cookie.getSessionId jar' fresh')) = (200, PBPlayer (Some p)) /\
    find_player w' (fst (Cookie.getSessionId jar' fresh')) = Some p /\
    NoDup (map session_id (players w')) /\
    (forall q, find_player w sid = Some q -> p_id p = p_id q) /\
    (forall ck, ck <> sid -> find_player w' ck = find_player w ck).
Proof.
  intros w nick jar fresh fresh' Hfr Hn [Hlo Hhi].
  assert (Hc : forall sid jar', Cookie.getSessionId jar fresh = (sid, jar') ->
                 fst (Cookie.getSessionId jar' fresh') = sid).
  { unfold Cookie.getSessionId; intros sid jar' H.
    destruct jar as [v|].
    - destruct (String.eqb v "") eqn:Ev; injection H as <- <-; simpl.
      + apply String.eqb_neq in Hfr; rewrite Hfr; reflexivity.
      + rewrite Ev; reflexivity.
    - injection H as <- <-; simpl.
      apply String.eqb_neq in Hfr; rewrite Hfr; reflexivity. }
  destruct (Cookie.getSessionId jar fresh) as [sid jar'] eqn:Eg.
  rewrite (Hc sid jar' eq_refl).
  unfold postPlayer.
  assert (Hv : (js_length (js_trim nick) <? 2) || (20 <? js_length (js_trim nick))
               = false).
  { apply orb_false_iff; split; apply Nat.ltb_ge; lia. }
  rewrite Hv.
  pose proof (upsert_player_spec w sid (js_trim nick) Hn) as Hu.
  destruct (upsert_player w sid (js_trim nick)) as [p w'].
  destruct Hu as [_ [Hnick [Hf [Hnd [Hid Hoth]]]]].
  exists p; split; [reflexivity|]; split; [exact Hnick|].
  split; [unfold getPlayer; rewrite Hf; reflexivity|].
  split; [exact Hf|]; split; [exact Hnd|]; split; [exact Hid|exact Hoth].
Qed.

(** Witness of [postPlayer_registers]: a browser without a cookie posts
    the two-syllable Korean nickname "Hanguk" (six UTF-8 bytes, two
    UTF-16 units) padded with a space, to [w_partial]. *)
Definition nick_hanguk : string :=
  String (Ascii.ascii_of_nat 32)
  (String (Ascii.ascii_of_nat 237) (String (Ascii.ascii_of_nat 149)
  (String (Ascii.ascii_of_nat 156) (String (Ascii.ascii_of_nat 234)
  (String (Ascii.ascii_of_nat 181) (String (Ascii.ascii_of_nat 173)
  EmptyString)))))).

Lemma postPlayer_registers_witness :
  exists p,
    fst (postPlayer w_partial (Some nick_hanguk) "c0"%string)
      = (200, PBPlayer (Some p)) /\
    find_player (snd (postPlayer w_partial (Some nick_hanguk) "c0"%string))
                "c0"%string = Some p.
Proof.
  generalize (postPlayer_registers w_partial nick_hanguk None "c0"%string
                "c1"%string ltac:(discriminate)
                ltac:(vm_compute; repeat constructor; simpl; intuition discriminate)
                ltac:(vm_compute; lia)).
  intros H; hnf in H; destruct H as [p [Hr [_ [_ [Hf _]]]]].
  exists p; split; [exact Hr|exact Hf].
Defined.

End PlayerProps.

(* ------------------------------------------------------------------ *)
(** ** The admin decision on a game request *)

Module AdminProps.
Import Admin.

Lemma find_request_set st id s rq :
  find_request st id = Some rq ->
  find_request (set_request_status st id s) id
    = Some (mkGR (gr_id rq) (gr_title rq) (gr_html_file_url rq) s).
Proof.
  unfold find_request, set_request_status; simpl; intros H.
  rewrite filter_map_commute.
  - apply single_some in H; rewrite H; simpl.
    assert (Hin : In rq (filter (fun r => String.eqb (gr_id r) id) (game_requests st)))
      by (rewrite H; left; reflexivity).
    apply filter_In in Hin; destruct Hin as [_ Hin]; rewrite Hin; reflexivity.
  - intros x; destruct (String.eqb (gr_id x) id) eqn:E; simpl; rewrite ?E; reflexivity.
Qed.

Lemma insert_game_requests st g st' :
  insert_game st g = Some st' -> game_requests st' = game_requests st.
Proof.
  unfold insert_game; destruct (existsb _ _); intros H; [discriminate|].
  injection H as <-; reflexivity.
Qed.

Lemma insert_game_rows st g st' :
  insert_game st g = Some st' -> game_rows st' = game_rows st ++ [g].
Proof.
  unfold insert_game; destruct (existsb _ _); intros H; [discriminate|].
  injection H as <-; reflexivity.
Qed.

Lemma find_request_rows st st' id :
  game_requests st' = game_requests st -> find_request st' id = find_request st id.
Proof. unfold find_request; intros ->; reflexivity. Qed.

(** A PATCH that got past the pending check wrote the request's status. *)
Lemma patch_decided secret hd id body now36 st code b st' :
  patch secret hd id body now36 st = ((code, b), st') ->
  code = 200 \/ code = 500 ->
  exists rq s, find_request st id = Some rq /\
    String.eqb s "pending" = false /\
    game_requests st' = game_requests (set_request_status st id s).
Proof.
  unfold patch.
  destruct (negb (isAdminAuthorized secret hd)).
  { intros H; injection H as <- _ <-; intros [H|H]; discriminate. }
  destruct (String.eqb id "").
  { intros H; injection H as <- _ <-; intros [H|H]; discriminate. }
  destruct body as [act|].
  2:{ intros H; injection H as <- _ <-; intros [H|H]; discriminate. }
  destruct (match act with
            | Some a => if String.eqb a "approve" then Some true
                        else if String.eqb a "reject" then Some false else None
            | None => None end) as [approve|].
  2:{ intros H; injection H as <- _ <-; intros [H|H]; discriminate. }
  destruct (find_request st id) as [rq|] eqn:Ef.
  2:{ intros H; injection H as <- _ <-; intros [H|H]; discriminate. }
  destruct (negb (String.eqb (gr_status rq) "pending")).
  { intros H; injection H as <- _ <-; intros [H|H]; discriminate. }
  destruct approve.
  - match goal with
    | |- context [insert_game ?s1 ?g] => destruct (insert_game s1 g) as [st2|] eqn:Ei
    end.
    + intros H _; injection H as _ _ <-.
      exists rq, "approved"%string; split; [reflexivity|]; split; [reflexivity|].
      apply (insert_game_requests _ _ _ Ei).
    + intros H _; injection H as _ _ <-.
      exists rq, "approved"%string; split; [reflexivity|]; split; reflexivity.
  - intros H _; injection H as _ _ <-.
    exists rq, "rejected"%string; split; [reflexivity|]; split; reflexivity.
Qed.

(** A request that is no longer pending is never changed again. *)
Lemma patch_refused_decided secret hd id body now36 st rq :
  find_request st id = Some rq -> String.eqb (gr_status rq) "pending" = false ->
  snd (patch secret hd id body now36 st) = st /\
  fst (fst (patch secret hd id body now36 st)) <> 200.
Proof.
  intros Hf Hs; unfold patch.
  destruct (negb (isAdminAuthorized secret hd)); [split; [reflexivity|discriminate]|].
  destruct (String.eqb id ""); [split; [reflexivity|discriminate]|].
  destruct body as [act|]; [|split; [reflexivity|discriminate]].
  destruct (match act with
            | Some a => if String.eqb a "approve" then Some true
                        else if String.eqb a "reject" then Some false else None
            | None => None end) as [approve|]; [|split; [reflexivity|discriminate]].
  rewrite Hf, Hs; split; [reflexivity|discriminate].
Qed.

(** A game request is decided at most once: after a PATCH that approved
    or rejected it (answer 200) or approved it and failed to add the
    game (answer 500), every later PATCH of the same id, whoever sends
    it and whatever its body, leaves the store as it is and does not
    answer 200. *)
Theorem admin_decides_once :
  forall secret hd id body now36 st code b st',
  patch secret hd id body now36 st = ((code, b), st') ->
  code = 200 \/ code = 500 ->
  forall hd' body' now36',
    snd (patch secret hd' id body' now36' st') = st' /\
    fst (fst (patch secret hd' id body' now36' st')) <> 200.
Proof.
  intros secret hd id body now36 st code b st' H Hc hd' body' now36'.
  destruct (patch_decided _ _ _ _ _ _ _ _ _ H Hc) as [rq [s [Hf [Hs Hr]]]].
  apply (patch_refused_decided secret hd' id body' now36' st'
           (mkGR (gr_id rq) (gr_title rq) (gr_html_file_url rq) s)).
  - rewrite (find_request_rows (set_request_status st id s) st' id Hr).
    apply find_request_set, Hf.
  - exact Hs.
Qed.

Definition store_example : Store :=
  mkStore [mkGR "r1" "Tic Tac Toe" None "pending"]
          [mkGameRow "Rock Paper Scissors" "rps" None true 1].

(** Witness of [admin_decides_once]: "r1" is approved without an admin
    secret; a later reject of it is refused. *)
Lemma admin_decides_once_witness :
  snd (patch "" None "r1" (Some (Some "reject"%string)) "m0"
         (snd (patch "" None "r1" (Some (Some "approve"%string)) "m0" store_example)))
  = snd (patch "" None "r1" (Some (Some "approve"%string)) "m0" store_example).
Proof.
  apply (admin_decides_once "" None "r1" (Some (Some "approve"%string)) "m0"
           store_example 200 (AOk "approved")
           (snd (patch "" None "r1" (Some (Some "approve"%string)) "m0" store_example))
           ltac:(vm_compute; reflexivity) (or_introl eq_refl)).
Defined.














Lemma existsb_slug_in (l : list GameRow) s :
  existsb (fun x => String.eqb (gm_slug x) s) l = false -> ~ In s (map gm_slug l).
Proof.
  intros H Hin; apply in_map_iff in Hin; destruct Hin as [g [Hg Hin]].
  assert (He : existsb (fun x => String.eqb (gm_slug x) s) l = true)
    by (apply existsb_exists; exists g; split; [exact Hin|apply String.eqb_eq, Hg]).
  congruence.
Qed.



End AdminProps.

(* ------------------------------------------------------------------ *)
(** ** The first match handler *)

Module LegacyMatchProps.

(** A request served from an own active session found in the store. *)
Lemma legacy_match_existing w gs ck pl game s :
  String.eqb gs "" = false ->
  find_player w ck = Some pl ->
  single (filter (fun x => String.eqb (slug x) gs && is_active x) (games w))
    = Some game ->
  In s (game_sessions w) -> own_active (g_id game) (p_id pl) s = true ->
  exists s', requestMatch_legacy w gs ck = (mkResp 200 (BSession (Some s')), w)
             /\ own_active (g_id game) (p_id pl) s' = true.
Proof.
  intros He Hp Hg Hs Ho; unfold requestMatch_legacy; rewrite He, Hp, Hg.
  destruct (max_by created_at (filter (own_active (g_id game) (p_id pl))
                                      (game_sessions w))) as [s'|] eqn:Hm.
  - exists s'; split; [reflexivity|].
    apply max_by_in, filter_In in Hm; apply Hm.
  - apply max_by_none in Hm.
    assert (Hin : In s (filter (own_active (g_id game) (p_id pl)) (game_sessions w)))
      by (apply filter_In; auto).
    rewrite Hm in Hin; contradiction.
Qed.

Lemma legacy_cws_spec w g p r w' :
  legacy_createWaitingSession w g p = (r, w') ->
  exists s, r = mkResp 200 (BSession (Some s)) /\ In s (game_sessions w')
            /\ own_active g p s = true
            /\ players w' = players w /\ games w' = games w
            /\ relay_log w' = relay_log w.
Proof.
  unfold legacy_createWaitingSession, insert_session; simpl.
  intros H; injection H as <- <-.
  eexists; split; [reflexivity|]; simpl.
  split; [apply in_or_app; right; left; reflexivity|].
  unfold own_active; simpl; rewrite Nat.eqb_refl, Nat.eqb_refl; auto.
Qed.

(** The rows the optimistic-lock update returns are claimed copies of
    the one waiting row with that id. *)
Lemma legacy_claim_row w ws pid u rows w1 :
  NoDup (map id (game_sessions w)) -> In ws (game_sessions w) ->
  update_sessions w (claimable (id ws)) (claim_row pid) = (rows, w1) ->
  single rows = Some u ->
  u = touch (clock w) (claim_row pid ws) /\ In u (game_sessions w1)
  /\ players w1 = players w /\ games w1 = games w /\ relay_log w1 = relay_log w.
Proof.
  intros Hn Hws Hu Hs; unfold update_sessions in Hu; injection Hu as Hr Hw1.
  apply single_some in Hs.
  assert (Hin : In u rows) by (rewrite Hs; left; reflexivity).
  rewrite <- Hr in Hin; apply in_map_iff in Hin.
  destruct Hin as [x [Hx Hxf]]; apply filter_In in Hxf; destruct Hxf as [Hxin Hc].
  pose proof Hc as Hc'; unfold claimable in Hc'; apply andb_true_iff in Hc'.
  destruct Hc' as [Hid _]; apply Nat.eqb_eq in Hid.
  assert (x = ws) by (apply (nodup_id_eq (game_sessions w)); auto).
  subst x; rewrite Hc in Hx.
  split; [symmetry; exact Hx|].
  rewrite <- Hw1; simpl; repeat split; auto.
  apply in_map_iff; exists ws; split; [|exact Hxin].
  rewrite Hc; exact Hx.
Qed.


(** The first match handler is re-entrant: when it answers 200 it
    returns a session row that is in the store afterwards and is an active
    session of the caller in the requested game, and a repeated request
    is answered 200 with an active session of the caller in that game and
    writes nothing.  The handler never posts to the relay. *)
Theorem legacy_match_reentrant w gs ck r w' :
  NoDup (map id (game_sessions w)) ->
  requestMatch_legacy w gs ck = (r, w') ->
  http_status r = 200 ->
  relay_log w' = relay_log w /\
  exists s pl game,
    r = mkResp 200 (BSession (Some s)) /\ In s (game_sessions w') /\
    find_player w' ck = Some pl /\
    single (filter (fun x => String.eqb (slug x) gs && is_active x) (games w'))
      = Some game /\
    own_active (g_id game) (p_id pl) s = true /\
    exists s', requestMatch_legacy w' gs ck = (mkResp 200 (BSession (Some s')), w')
               /\ own_active (g_id game) (p_id pl) s' = true.
Proof.
  intros Hn H H200.
  assert (Hfin : forall s pl game w2,
            String.eqb gs "" = false ->
            find_player w ck = Some pl ->
            single (filter (fun x => String.eqb (slug x) gs && is_active x) (games w))
              = Some game ->
            players w2 = players w -> games w2 = games w ->
            In s (game_sessions w2) -> own_active (g_id game) (p_id pl) s = true ->
            exists s0 pl0 game0,
              mkResp 200 (BSession (Some s)) = mkResp 200 (BSession (Some s0)) /\
              In s0 (game_sessions w2) /\ find_player w2 ck = Some pl0 /\
              single (filter (fun x => String.eqb (slug x) gs && is_active x)
                             (games w2)) = Some game0 /\
              own_active (g_id game0) (p_id pl0) s0 = true /\
              exists s', requestMatch_legacy w2 gs ck
                           = (mkResp 200 (BSession (Some s')), w2)
                         /\ own_active (g_id game0) (p_id pl0) s' = true).
  { intros s pl game w2 He Hp Hg Hpl Hgm Hs Ho.
    assert (Hp2 : find_player w2 ck = Some pl) by (unfold find_player; rewrite Hpl; exact Hp).
    assert (Hg2 : single (filter (fun x => String.eqb (slug x) gs && is_active x)
                                 (games w2)) = Some game) by (rewrite Hgm; exact Hg).
    exists s, pl, game.
    do 5 (split; [auto|]).
    apply (legacy_match_existing w2 gs ck pl game s); auto. }
  unfold requestMatch_legacy in H.
  destruct (String.eqb gs "") eqn:He; [injection H as <- <-; discriminate|].
  destruct (find_player w ck) as [pl|] eqn:Hp; [|injection H as <- <-; discriminate].
  destruct (single (filter (fun x => String.eqb (slug x) gs && is_active x) (games w)))
    as [game|] eqn:Hg; [|injection H as <- <-; discriminate].
  destruct (max_by created_at (filter (own_active (g_id game) (p_id pl))
                                      (game_sessions w))) as [s|] eqn:Hm.
  { injection H as <- <-; split; [reflexivity|].
    apply max_by_in, filter_In in Hm; destruct Hm as [Hs Ho].
    apply (Hfin s pl game w); auto. }
  destruct (find_waiting w (g_id game) (p_id pl) None) as [ws|] eqn:Hw.
  - destruct (update_sessions w (claimable (id ws)) (claim_row (p_id pl)))
      as [rows w1] eqn:Hu.
    apply find_waiting_spec in Hw.
    destruct Hw as [Hwin [Hwg [Hwst [_ [_ _]]]]].
    destruct (single rows) as [u|] eqn:Hs.
    + injection H as <- <-.
      destruct (legacy_claim_row w ws (p_id pl) u rows w1 Hn Hwin Hu Hs)
        as [Hu' [Huin [Hpl [Hgm Hrl]]]].
      split; [exact Hrl|].
      apply (Hfin u pl game w1); auto.
      rewrite Hu'; unfold own_active, touch, claim_row; simpl.
      rewrite Hwg, Nat.eqb_refl; simpl.
      rewrite Nat.eqb_refl, orb_true_r; reflexivity.
    + assert (Hw1 : players w1 = players w /\ games w1 = games w
                    /\ relay_log w1 = relay_log w)
        by (unfold update_sessions in Hu; injection Hu as _ <-; simpl; auto).
      destruct Hw1 as [Hpl1 [Hgm1 Hrl1]].
      destruct (legacy_cws_spec w1 (g_id game) (p_id pl) r w' H)
        as [s [-> [Hsin [Ho [Hpl [Hgm Hrl]]]]]].
      split; [congruence|].
      apply (Hfin s pl game w'); auto; congruence.
  - destruct (legacy_cws_spec w (g_id game) (p_id pl) r w' H)
      as [s [-> [Hsin [Ho [Hpl [Hgm Hrl]]]]]].
    split; [exact Hrl|].
    apply (Hfin s pl game w'); auto.
Qed.


Definition w_queue : World :=
  mkWorld [mkPlayer 7 "alice" "alice" None; mkPlayer 8 "bob" "bob" None]
          [mkGame 100 "rps" true None] [bob_waiting] [] [] None 10 50.

Lemma legacy_match_reentrant_witness :
  exists s',
    requestMatch_legacy (snd (requestMatch_legacy w_queue "rps"%string "alice"%string))
                        "rps"%string "alice"%string
      = (mkResp 200 (BSession (Some s')),
         snd (requestMatch_legacy w_queue "rps"%string "alice"%string))
    /\ player2_id s' = Some 7.
Proof.
  destruct (legacy_match_reentrant w_queue "rps"%string "alice"%string
              (fst (requestMatch_legacy w_queue "rps"%string "alice"%string))
              (snd (requestMatch_legacy w_queue "rps"%string "alice"%string))
              ltac:(vm_compute; repeat constructor; simpl; tauto)
              eq_refl eq_refl)
    as [_ [s [pl [game [_ [_ [_ [_ [_ [s' [Hs' _]]]]]]]]]]].
  exists s'; split; [exact Hs'|].
  revert Hs'; vm_compute; intros Hs'; injection Hs' as <-; reflexivity.
Defined.

End LegacyMatchProps.
